(** * Verification of the OSM amenity extraction pipeline (extraction.py)

    A shallow embedding of [clean_name], [extract_amenities_for_place] and
    [extract_for_provinces], together with the properties their
    specification states about them.

    Conventions of the embedding:
    - a Python [str] is the list of its Unicode code points;
    - a (Geo)DataFrame is its list of column labels and its list of rows,
      a row being a finite map from column label to cell value;
    - effects (file system, external query, writers, console) are threaded
      through an explicit [world], and a raised exception is a result
      [Raised e] that [bind] propagates and [attempt] intercepts;
    - paths are POSIX paths. *)

From Stdlib Require Import NArith ZArith Ascii String.
From stdpp Require Import base option list gmap.

Local Open Scope list_scope.
Set Warnings "-clear-no-such-hyp".

(** ** Python strings *)

Module Str.

Local Open Scope N_scope.

(** A character is a code point, a string is a list of them. *)
Abbreviation char := N (only parsing).
Abbreviation str := (list N) (only parsing).

(** String literals of the source, written as Rocq strings. *)
Definition lit (s : string) : str :=
  List.map N_of_ascii (list_ascii_of_string s).

Definition comma : char := 44.
Definition slash : char := 47.
Definition space : char := 32.
Definition underscore : char := 95.

(** [str.isspace] on one character: the code points CPython's
    [_PyUnicode_IsWhitespace] accepts.  This is the set that [strip()] and
    [split()] without arguments use. *)
Definition isspace (c : char) : bool :=
  ((9 <=? c) && (c <=? 13)) || ((28 <=? c) && (c <=? 32))
  || (c =? 133) || (c =? 160) || (c =? 5760)
  || ((8192 <=? c) && (c <=? 8202))
  || (c =? 8232) || (c =? 8233) || (c =? 8239) || (c =? 8287)
  || (c =? 12288).

(** [t.startswith(s)] *)
Fixpoint startswith (s t : str) : bool :=
  match s, t with
  | [], _ => true
  | c :: s', d :: t' => (c =? d) && startswith s' t'
  | _ :: _, [] => false
  end.

(** [s.endswith(t)] *)
Definition endswith (t s : str) : bool := startswith (rev t) (rev s).

(** [s.replace(old, new)] for a non-empty [old]: occurrences are found left
    to right and do not overlap.  [skip] counts the characters of a match
    that are still to be dropped. *)
Fixpoint replace_from (old new : str) (skip : nat) (s : str) : str :=
  match s with
  | [] => []
  | c :: s' =>
      match skip with
      | S k => replace_from old new k s'
      | O =>
          if startswith old s
          then new ++ replace_from old new (length old - 1) s'
          else c :: replace_from old new 0 s'
      end
  end.

(** [s.replace(old, new)]; with an empty [old], Python puts [new] before
    every character and at the end. *)
Definition replace (old new s : str) : str :=
  match old with
  | [] => new ++ flat_map (fun c => c :: new) s
  | _ :: _ => replace_from old new 0 s
  end.

(** [s.lstrip()], [s.rstrip()], [s.strip()] *)
Fixpoint lstrip (s : str) : str :=
  match s with
  | [] => []
  | c :: s' => if isspace c then lstrip s' else s
  end.

Fixpoint rstrip (s : str) : str :=
  match s with
  | [] => []
  | c :: s' =>
      match rstrip s' with
      | [] => if isspace c then [] else [c]
      | t => c :: t
      end
  end.

Definition strip (s : str) : str := rstrip (lstrip s).

(** [s.split()]: the maximal runs of non-whitespace characters.  [w] is the
    word being read. *)
Fixpoint split_from (w : str) (s : str) : list str :=
  match s with
  | [] => match w with [] => [] | _ => [w] end
  | c :: s' =>
      if isspace c
      then match w with [] => split_from [] s' | _ => w :: split_from [] s' end
      else split_from (w ++ [c]) s'
  end.

Definition split (s : str) : list str := split_from [] s.

(** [sep.join(words)] *)
Fixpoint join (sep : str) (words : list str) : str :=
  match words with
  | [] => []
  | [w] => w
  | w :: ws => w ++ sep ++ join sep ws
  end.

End Str.

Import Str.

(** ** Name Normalizer *)

(** [clean_name], line 13: remove the commas, turn every [/] into [_],
    strip, turn every space into [_]. *)
Definition clean_name (s : str) : str :=
  replace (lit " ") (lit "_")
    (strip (replace (lit "/") (lit "_") (replace (lit ",") [] s))).


(** Line 22: [" ".join(place_name.strip().split())], the name the region is
    queried under. *)
Definition query_place_of (place_name : str) : str :=
  join (lit " ") (split (strip place_name)).

(** ** POSIX paths ([posixpath]) *)

(** [os.path.join(a, b)] *)
Definition os_path_join (a b : str) : str :=
  if startswith (lit "/") b then b
  else if bool_decide (a = []) || endswith (lit "/") a then a ++ b
  else a ++ lit "/" ++ b.

(** [p.rfind("/") + 1]: the length of the part of [p] up to and including
    its last separator, 0 when there is none. *)
Fixpoint rfind_sep_end (p : str) : nat :=
  match p with
  | [] => 0
  | c :: p' =>
      match rfind_sep_end p' with
      | S i => S (S i)
      | O => if N.eqb c slash then 1 else 0
      end
  end.

(** [head.rstrip("/")] *)
Fixpoint rstrip_sep (s : str) : str :=
  match s with
  | [] => []
  | c :: s' =>
      match rstrip_sep s' with
      | [] => if N.eqb c slash then [] else [c]
      | t => c :: t
      end
  end.

(** [os.path.dirname(p)] *)
Definition os_path_dirname (p : str) : str :=
  let head := take (rfind_sep_end p) p in
  if bool_decide (head <> []) && negb (forallb (N.eqb slash) head)
  then rstrip_sep head
  else head.

(** [a or b] on strings: the empty string is falsy. *)
Definition str_or (a b : str) : str :=
  match a with [] => b | _ :: _ => a end.

(** ** Feature collections (GeoDataFrames) *)

(** A double, identified by its IEEE-754 bit pattern: the pipeline copies
    coordinates and never computes with them. *)
Abbreviation float := Z (only parsing).

(** The shapely geometry types other than [Point]. *)
Inductive shape :=
| LineString | LinearRing | Polygon
| MultiPoint | MultiLineString | MultiPolygon | GeometryCollection.

Inductive geometry :=
| Point (x y : float)
| Shape (k : shape) (coords : list float).

(** The value of one cell.  [Null] is pandas' missing value ([None] or NaN). *)
Inductive cell :=
| Null
| VStr (s : str)
| VInt (z : Z)
| VFloat (f : float)
| VBool (b : bool)
| VGeom (g : geometry).

#[global] Instance shape_eq_dec : EqDecision shape.
Proof. solve_decision. Defined.
#[global] Instance geometry_eq_dec : EqDecision geometry.
Proof. solve_decision. Defined.
#[global] Instance cell_eq_dec : EqDecision cell.
Proof. solve_decision. Defined.

(** A record: its value in every column; a label that is absent reads as
    [Null]. *)
Abbreviation row := (gmap (list N) cell) (only parsing).

Record GeoDataFrame := {
  columns : list str;
  rows : list row
}.

(** [len(gdf)] *)
Definition len (g : GeoDataFrame) : nat := length (rows g).

(** [gdf.empty]: no row or no column. *)
Definition empty (g : GeoDataFrame) : bool :=
  match rows g, columns g with
  | _ :: _, _ :: _ => false
  | _, _ => true
  end.

(** [key in gdf] and [key in gdf.columns] *)
Definition has_column (key : str) (g : GeoDataFrame) : bool :=
  bool_decide (key ∈ columns g).

Definition at_col (key : str) (r : row) : cell := default Null (r !! key).

(** [gdf[key]]: the Series of one column. *)
Definition series (key : str) (g : GeoDataFrame) : list cell :=
  at_col key <$> rows g.

(** [series.notnull()] on one value *)
Definition notnull (c : cell) : bool :=
  match c with Null => false | _ => true end.

(** [series == values] on one value, for a string [values] *)
Definition eq_str (values : str) (c : cell) : bool :=
  match c with VStr s => bool_decide (s = values) | _ => false end.

(** [series.isin(values)] on one value, for a sequence of strings *)
Definition isin (values : list str) (c : cell) : bool :=
  match c with VStr s => bool_decide (s ∈ values) | _ => false end.

(** [rows[mask]]: boolean indexing, the rows whose mask entry is [True]. *)
Fixpoint boolean_index_rows (rs : list row) (mask : list bool) : list row :=
  match rs, mask with
  | r :: rs', b :: mask' =>
      if b then r :: boolean_index_rows rs' mask'
      else boolean_index_rows rs' mask'
  | _, _ => []
  end.

(** [gdf[mask].copy()] *)
Definition boolean_index (g : GeoDataFrame) (mask : list bool) : GeoDataFrame :=
  {| columns := columns g; rows := boolean_index_rows (rows g) mask |}.

(** [gdf[key] = values]: a new column goes last, an existing one is
    overwritten in place. *)
Definition set_column (key : str) (values : list cell) (g : GeoDataFrame)
  : GeoDataFrame :=
  {| columns := if has_column key g then columns g else columns g ++ [key];
     rows := zip_with (fun r v => <[key := v]> r) (rows g) values |}.

(** [gdf.drop(columns=key, errors='ignore')] *)
Definition drop_column (key : str) (g : GeoDataFrame) : GeoDataFrame :=
  {| columns := List.filter (fun c => negb (bool_decide (c = key))) (columns g);
     rows := delete key <$> rows g |}.

(** [gpd.GeoDataFrame(columns=cols)] *)
Definition empty_frame (cols : list str) : GeoDataFrame :=
  {| columns := cols; rows := [] |}.

(** *** The geometry column *)

(** The geometry of a record; anything that is not a geometry counts as
    missing. *)
Definition geom_of (r : row) : option geometry :=
  match at_col (lit "geometry") r with
  | VGeom g => Some g
  | _ => None
  end.

(** [gdf.geometry] *)
Definition geometry_series (g : GeoDataFrame) : list (option geometry) :=
  geom_of <$> rows g.

Definition shape_name (k : shape) : str :=
  match k with
  | LineString => lit "LineString"
  | LinearRing => lit "LinearRing"
  | Polygon => lit "Polygon"
  | MultiPoint => lit "MultiPoint"
  | MultiLineString => lit "MultiLineString"
  | MultiPolygon => lit "MultiPolygon"
  | GeometryCollection => lit "GeometryCollection"
  end.

(** One entry of [gdf.geom_type] *)
Definition geom_type (o : option geometry) : option str :=
  match o with
  | Some (Point _ _) => Some (lit "Point")
  | Some (Shape k _) => Some (shape_name k)
  | None => None
  end.

(** One entry of [gdf.geom_type == 'Point'] *)
Definition is_point (o : option geometry) : bool :=
  bool_decide (geom_type o = Some (lit "Point")).

(** [series.value_counts()]: how often each non-missing value occurs.  The
    entries are listed by first occurrence; pandas orders them by count, which
    only the printed text shows. *)
Fixpoint count_one (v : str) (acc : list (str * nat)) : list (str * nat) :=
  match acc with
  | [] => [(v, 1)]
  | (k, n) :: acc' =>
      if bool_decide (k = v) then (k, S n) :: acc' else (k, n) :: count_one v acc'
  end.

Definition value_counts (l : list (option str)) : list (str * nat) :=
  fold_left (fun acc o => match o with Some v => count_one v acc | None => acc end)
    l [].

(** ** Attribute category specification *)

(** The value a tag maps to: [True], one string, a list or tuple of strings,
    or anything else (a number, [False], [None], a dict, ...). *)
Inductive selector :=
| SelTrue
| SelStr (value : str)
| SelSeq (values : list str)
| SelOther.

(** [tags_dict]: a dict, iterated in insertion order. *)
Abbreviation tags := (list (list N * selector)) (only parsing).

(** ** The stages of the pipeline, as functions of the collection *)

(** Line 56: [gdf_all[gdf_all.geometry.notnull()].copy()] *)
Definition drop_missing_geometry (g : GeoDataFrame) : GeoDataFrame :=
  boolean_index g ((fun o => bool_decide (is_Some o)) <$> geometry_series g).

(** [gdf.geometry.y] and [gdf.geometry.x]: geopandas gives the coordinate of
    every point, makes a missing geometry NaN, and raises [ValueError] when a
    geometry is present that is not a point. *)
Definition coord_of (pick : float -> float -> float) (o : option geometry)
  : option cell :=
  match o with
  | Some (Point x y) => Some (VFloat (pick x y))
  | Some (Shape _ _) => None
  | None => Some Null
  end.

Definition geometry_y (g : GeoDataFrame) : option (list cell) :=
  mapM (coord_of (fun _ y => y)) (geometry_series g).

Definition geometry_x (g : GeoDataFrame) : option (list cell) :=
  mapM (coord_of (fun x _ => x)) (geometry_series g).

(** [series.duplicated(keep='first')]: an entry is a duplicate when its value
    occurred before it; missing values count as equal to each other. *)
Fixpoint duplicated_from (seen : list cell) (ids : list cell) : list bool :=
  match ids with
  | [] => []
  | c :: ids' => bool_decide (c ∈ seen) :: duplicated_from (c :: seen) ids'
  end.

Definition duplicated (ids : list cell) : list bool := duplicated_from [] ids.

(** [gdf.drop_duplicates(subset=key)] *)
Definition drop_duplicates (key : str) (g : GeoDataFrame) : GeoDataFrame :=
  boolean_index g (negb <$> duplicated (series key g)).

(** Lines 92-99: the subset of one category. *)
Definition subset_for (key : str) (values : selector) (g : GeoDataFrame)
  : GeoDataFrame :=
  match values with
  | SelTrue => boolean_index g (notnull <$> series key g)
  | SelStr v => boolean_index g (eq_str v <$> series key g)
  | SelSeq vs => boolean_index g (isin vs <$> series key g)
  | SelOther => empty_frame (columns g)
  end.

(** ** Effects *)

(** The exceptions of the model; all of them derive from [Exception], so
    [except Exception] intercepts every one. *)
Inductive exn :=
| FileExistsError
| FileNotFoundError
| NotADirectoryError
| IsADirectoryError
| ValueError
| OtherError (name : str).

Inductive outcome (A : Type) :=
| Returned (a : A)
| Raised (e : exn).
Arguments Returned {A} a.
Arguments Raised {A} e.

(** What the program prints, one constructor per message. *)
Inductive message :=
| MsgExtracting (prov_clean : str)
| MsgQuerying (query_place : str)
| MsgQueryError (query_place : str) (e : exn)
| MsgNoFeatures (query_place : str)
| MsgGeomTypes (counts : list (str * nat))
| MsgKeepPoints (n : nat)
| MsgNoPoints
| MsgDedup (before after : nat)
| MsgSaveGeoError (e : exn)
| MsgSaveCsvError (e : exn)
| MsgTagMissing (key query_place : str)
| MsgNoSubset (key : str) (values : selector) (query_place : str)
| MsgSubsetGeoError (key : str) (e : exn)
| MsgSubsetCsvError (key : str) (e : exn).

(** The calls that leave the process, in the order they are made. *)
Inductive event :=
| EMakedirs (path : str)
| EQuery (query_place : str) (tags_dict : tags)
| EToFile (path : str) (g : GeoDataFrame)
| EToCsv (path : str) (g : GeoDataFrame)
| EPrint (m : message).

(** *** File system *)

(** [p.split("/")]; [w] is the component being read. *)
Fixpoint split_sep (w : str) (p : str) : list str :=
  match p with
  | [] => [w]
  | c :: p' => if N.eqb c slash then w :: split_sep [] p' else split_sep (w ++ [c]) p'
  end.

(** What a path resolves to: whether it is absolute, and its components.
    Empty components and [.] are dropped; [..] and symbolic links are not
    resolved. *)
Definition resolve (p : str) : bool * list str :=
  (startswith (lit "/") p,
   List.filter (fun c => negb (bool_decide (c = []) || bool_decide (c = lit ".")))
     (split_sep [] p)).

Inductive content :=
| GeoJSON (g : GeoDataFrame)
| CSV (g : GeoDataFrame).

Inductive node :=
| Dir
| File (c : content).

Abbreviation filesystem := (gmap (bool * list (list N)) node) (only parsing).

Record world := {
  fs : filesystem;
  trace : list event
}.

(** The root and the working directory always exist. *)
Definition isdir (f : filesystem) (k : bool * list str) : bool :=
  match k.2 with
  | [] => true
  | _ :: _ => match f !! k with Some Dir => true | _ => false end
  end.

Definition isfile (f : filesystem) (k : bool * list str) : bool :=
  match f !! k with Some (File _) => true | _ => false end.

(** The directories [makedirs] creates, outermost first.  [pre] is the part
    of the path already passed, [todo] what is left of it. *)
Fixpoint mkdir_chain (abs : bool) (pre todo : list str) (f : filesystem)
  : outcome unit * filesystem :=
  match todo with
  | [] => (Returned tt, f)
  | c :: todo' =>
      let here := pre ++ [c] in
      match f !! (abs, here) with
      | Some (File _) =>
          (Raised (match todo' with [] => FileExistsError | _ => NotADirectoryError end), f)
      | Some Dir => mkdir_chain abs here todo' f
      | None => mkdir_chain abs here todo' (<[(abs, here) := Dir]> f)
      end
  end.

(** The keys of those directories. *)
Fixpoint chain_keys (abs : bool) (pre todo : list str) : list (bool * list str) :=
  match todo with
  | [] => []
  | c :: todo' => (abs, pre ++ [c]) :: chain_keys abs (pre ++ [c]) todo'
  end.

(** [os.makedirs(p, exist_ok=True)] on the file system. *)
Definition fs_makedirs (p : str) (f : filesystem) : outcome unit * filesystem :=
  match p with
  | [] => (Raised FileNotFoundError, f)
  | _ :: _ => mkdir_chain (resolve p).1 [] (resolve p).2 f
  end.

(** Creating or truncating the regular file [p]. *)
Definition fs_write (p : str) (c : content) (f : filesystem)
  : outcome unit * filesystem :=
  let k := resolve p in
  match k.2 with
  | [] => (Raised (match p with [] => FileNotFoundError | _ => IsADirectoryError end), f)
  | _ :: _ =>
      if isdir f k then (Raised IsADirectoryError, f)
      else if isdir f (k.1, removelast k.2) then (Returned tt, <[k := File c]> f)
      else if isfile f (k.1, removelast k.2) then (Raised NotADirectoryError, f)
      else (Raised FileNotFoundError, f)
  end.

(** *** The monad of the program: state and exceptions *)

Definition M (A : Type) : Type := world -> outcome A * world.

Definition ret {A} (a : A) : M A := fun w => (Returned a, w).

Definition raise {A} (e : exn) : M A := fun w => (Raised e, w).

Definition bind {A B} (m : M A) (k : A -> M B) : M B :=
  fun w =>
    match m w with
    | (Returned a, w') => k a w'
    | (Raised e, w') => (Raised e, w')
    end.

(** [try: m / except Exception as e: ...]: the outcome of [m] becomes a
    value; what [m] did before it raised stays done. *)
Definition attempt {A} (m : M A) : M (outcome A) :=
  fun w => let '(r, w') := m w in (Returned r, w').

Declare Scope prog_scope.
Delimit Scope prog_scope with prog.
Notation "x <- m ;; k" := (bind m (fun x => k))
  (at level 100, m at next level, right associativity) : prog_scope.
Notation "m ;; k" := (bind m (fun _ => k))
  (at level 100, right associativity) : prog_scope.
Local Open Scope prog_scope.

Definition emit (e : event) : M unit :=
  fun w => (Returned tt, {| fs := fs w; trace := trace w ++ [e] |}).

(** [print(...)] *)
Definition print (m : message) : M unit := emit (EPrint m).

(** Lifting a file-system operation. *)
Definition on_fs (op : filesystem -> outcome unit * filesystem) : M unit :=
  fun w => let '(r, f') := op (fs w) in (r, {| fs := f'; trace := trace w |}).

(** Lifting a computation of an external library that may raise. *)
Definition lift {A} (r : outcome A) : M A := fun w => (r, w).

(** *** External collaborators *)

(** What lies outside the program: the feature source, the reprojection, and
    the failures of the two writers that do not come from the file system
    (a value the driver cannot serialise, for instance). *)
Record env := {
  features_from_place : str -> tags -> outcome (option GeoDataFrame);
  to_crs_4326 : GeoDataFrame -> outcome GeoDataFrame;
  to_file_error : str -> GeoDataFrame -> option exn;
  to_csv_error : str -> GeoDataFrame -> option exn
}.

(** [os.makedirs(p, exist_ok=True)] *)
Definition os_makedirs (p : str) : M unit :=
  emit (EMakedirs p) ;; on_fs (fs_makedirs p).

(** [ox.features_from_place(query_place, tags=tags_dict)] *)
Definition ox_features_from_place (E : env) (query_place : str) (tags_dict : tags)
  : M (option GeoDataFrame) :=
  emit (EQuery query_place tags_dict) ;;
  lift (features_from_place E query_place tags_dict).

(** [gdf.to_file(p, driver="GeoJSON")] *)
Definition to_file (E : env) (g : GeoDataFrame) (p : str) : M unit :=
  emit (EToFile p g) ;;
  match to_file_error E p g with
  | Some e => raise e
  | None => on_fs (fs_write p (GeoJSON g))
  end.

(** [gdf.to_csv(p, index=False)] *)
Definition to_csv (E : env) (g : GeoDataFrame) (p : str) : M unit :=
  emit (EToCsv p g) ;;
  match to_csv_error E p g with
  | Some e => raise e
  | None => on_fs (fs_write p (CSV g))
  end.

(** ** Region Extractor *)

(** [for x in l: body(x)] *)
Fixpoint for_each {A} (l : list A) (body : A -> M unit) : M unit :=
  match l with
  | [] => ret tt
  | x :: l' => body x ;; for_each l' body
  end.

(** [try: body / except Exception as e: print(msg(e))] *)
Definition try_or_print (body : M unit) (msg : exn -> message) : M unit :=
  r <- attempt body ;;
  match r with
  | Returned _ => ret tt
  | Raised e => print (msg e)
  end.

(** Lines 42-51: keep the points when the collection has one. *)
Definition filter_points (gdf_all : GeoDataFrame) : M GeoDataFrame :=
  if has_column (lit "geometry") gdf_all then
    let geom_types := value_counts (geom_type <$> geometry_series gdf_all) in
    print (MsgGeomTypes geom_types) ;;
    if bool_decide (lit "Point" ∈ geom_types.*1) then
      let gdf_all := boolean_index gdf_all (is_point <$> geometry_series gdf_all) in
      print (MsgKeepPoints (len gdf_all)) ;;
      ret gdf_all
    else
      print MsgNoPoints ;;
      ret gdf_all
  else ret gdf_all.

(** Lines 54-58: drop the records without geometry, then store the
    coordinates in the columns [latitude] and [longitude]. *)
Definition extract_coordinates (gdf_all : GeoDataFrame) : M GeoDataFrame :=
  if has_column (lit "geometry") gdf_all then
    let gdf_all := drop_missing_geometry gdf_all in
    match geometry_y gdf_all with
    | None => raise ValueError
    | Some ys =>
        let gdf_all := set_column (lit "latitude") ys gdf_all in
        match geometry_x gdf_all with
        | None => raise ValueError
        | Some xs => ret (set_column (lit "longitude") xs gdf_all)
        end
    end
  else ret gdf_all.

(** Lines 61-64: remove the duplicates when there is an [osmid] column. *)
Definition dedup_osmid (gdf_all : GeoDataFrame) : M GeoDataFrame :=
  if has_column (lit "osmid") gdf_all then
    let before := len gdf_all in
    let gdf_all := drop_duplicates (lit "osmid") gdf_all in
    print (MsgDedup before (len gdf_all)) ;;
    ret gdf_all
  else ret gdf_all.

(** Lines 67-83: the two files of the whole collection. *)
Definition export_combined (E : env) (gdf_all : GeoDataFrame)
    (place_short output_folder : str) : M unit :=
  let combined_fname_geo := place_short ++ lit "_all_amenities.geojson" in
  let combined_path_geo := os_path_join output_folder combined_fname_geo in
  try_or_print
    (os_makedirs (str_or (os_path_dirname combined_path_geo) output_folder) ;;
     to_file E gdf_all combined_path_geo)
    MsgSaveGeoError ;;
  let combined_fname_csv := replace (lit ".geojson") (lit ".csv") combined_fname_geo in
  let combined_path_csv := os_path_join output_folder combined_fname_csv in
  try_or_print
    (os_makedirs (str_or (os_path_dirname combined_path_csv) output_folder) ;;
     to_csv E (drop_column (lit "geometry") gdf_all) combined_path_csv)
    MsgSaveCsvError.

(** Lines 87-120: the body of the loop over the tags. *)
Definition export_tag (E : env) (gdf_all : GeoDataFrame)
    (query_place place_short output_folder : str) (item : str * selector)
  : M unit :=
  let '(key, values) := item in
  if negb (has_column key gdf_all) then
    print (MsgTagMissing key query_place)
  else
    let subset := subset_for key values gdf_all in
    if empty subset then
      print (MsgNoSubset key values query_place)
    else
      let tag_short := clean_name key in
      let fname_geojson := place_short ++ lit "_" ++ tag_short ++ lit ".geojson" in
      let path_geojson := os_path_join output_folder fname_geojson in
      try_or_print
        (os_makedirs (str_or (os_path_dirname path_geojson) output_folder) ;;
         to_file E subset path_geojson)
        (MsgSubsetGeoError key) ;;
      let fname_csv := replace (lit ".geojson") (lit ".csv") fname_geojson in
      let path_csv := os_path_join output_folder fname_csv in
      try_or_print
        (os_makedirs (str_or (os_path_dirname path_csv) output_folder) ;;
         to_csv E (drop_column (lit "geometry") subset) path_csv)
        (MsgSubsetCsvError key).

(** Lines 35-122: what happens to a collection that was retrieved and is
    not empty. *)
Definition process_collection (E : env) (gdf_all : GeoDataFrame)
    (query_place : str) (tags_dict : tags) (output_folder : str)
  : M (option GeoDataFrame) :=
  r <- attempt (lift (to_crs_4326 E gdf_all)) ;;
  let gdf_all := match r with Returned g => g | Raised _ => gdf_all end in
  gdf_all <- filter_points gdf_all ;;
  gdf_all <- extract_coordinates gdf_all ;;
  gdf_all <- dedup_osmid gdf_all ;;
  let place_short := clean_name query_place in
  export_combined E gdf_all place_short output_folder ;;
  for_each tags_dict (export_tag E gdf_all query_place place_short output_folder) ;;
  ret (Some gdf_all).

(** [extract_amenities_for_place], lines 16-122.  The result is [None] or the
    final collection. *)
Definition extract_amenities_for_place (E : env) (place_name : str)
    (tags_dict : tags) (output_folder : str) : M (option GeoDataFrame) :=
  let output_folder := replace (lit ",") [] output_folder in
  os_makedirs output_folder ;;
  let query_place := query_place_of place_name in
  print (MsgQuerying query_place) ;;
  r <- attempt (ox_features_from_place E query_place tags_dict) ;;
  match r with
  | Raised e =>
      print (MsgQueryError query_place e) ;;
      ret None
  | Returned gdf_all =>
      match gdf_all with
      | None =>
          print (MsgNoFeatures query_place) ;;
          ret None
      | Some gdf_all =>
          if empty gdf_all then
            print (MsgNoFeatures query_place) ;;
            ret None
          else process_collection E gdf_all query_place tags_dict output_folder
      end
  end.

(** ** Batch Driver *)

(** [extract_for_provinces], lines 125-130. *)
Definition extract_for_provinces (E : env) (provinces_list : list str)
    (tags_dict : tags) (output_root_folder : str) : M unit :=
  for_each provinces_list (fun prov =>
    let prov_clean := clean_name prov in
    let folder := os_path_join output_root_folder prov_clean in
    print (MsgExtracting prov_clean) ;;
    extract_amenities_for_place E prov tags_dict folder ;;
    ret tt).

(** The default of [output_root_folder]. *)
Definition default_output_root_folder : str := lit "osm_helper_data".

(** ** Notions the statements use *)

(** A string that does not begin with whitespace. *)
Definition head_ok (s : str) : Prop :=
  match s with [] => True | c :: _ => isspace c = false end.

(** What [replace(" ", "_")] does to one character. *)
Definition unspace (x : N) : N := if N.eqb x space then underscore else x.

(** A record whose geometry is a point. *)
Definition point_record (r : row) : bool :=
  match geom_of r with Some (Point _ _) => true | _ => false end.

(** A collection with a geometry column and a point in it. *)
Definition has_point (g : GeoDataFrame) : bool :=
  has_column (lit "geometry") g && existsb point_record (rows g).

(** The first record, in order, whose column [key] holds [c]. *)
Definition first_with (key : str) (c : cell) (rs : list row) : option row :=
  List.find (fun r => bool_decide (at_col key r = c)) rs.

(** What a run from [w] to [w'] added to the trace. *)
Definition events_since (w w' : world) : list event :=
  drop (length (trace w)) (trace w').

(** The file names of one region: the combined GeoJSON file, then one
    GeoJSON file per tag; the CSV name is derived from the GeoJSON name. *)
Definition geojson_names (place_short : str) (tags_dict : tags) : list str :=
  (place_short ++ lit "_all_amenities.geojson")
  :: ((fun item : list N * selector =>
         place_short ++ lit "_" ++ clean_name item.1 ++ lit ".geojson")
      <$> tags_dict).

Definition csv_name (fname_geojson : str) : str :=
  replace (lit ".geojson") (lit ".csv") fname_geojson.

(** The calls one invocation of the Region Extractor can make. *)
Definition extractor_event (place_name : str) (tags_dict : tags)
    (output_folder : str) (e : event) : Prop :=
  let folder := replace (lit ",") [] output_folder in
  let names := geojson_names (clean_name (query_place_of place_name)) tags_dict in
  match e with
  | EMakedirs p =>
      p = folder \/
      exists name, name ∈ names /\
        (p = str_or (os_path_dirname (os_path_join folder name)) folder \/
         p = str_or (os_path_dirname (os_path_join folder (csv_name name))) folder)
  | EQuery q t => q = query_place_of place_name /\ t = tags_dict
  | EToFile p _ => exists name, name ∈ names /\ p = os_path_join folder name
  | EToCsv p _ => exists name, name ∈ names /\ p = os_path_join folder (csv_name name)
  | EPrint m => forall prov_clean, m <> MsgExtracting prov_clean
  end.

(** The calls that write the two files of one name are all [allowed]. *)
Definition name_allowed (allowed : event -> Prop) (folder name : str) : Prop :=
  allowed (EMakedirs (str_or (os_path_dirname (os_path_join folder name)) folder)) /\
  allowed (EMakedirs
             (str_or (os_path_dirname (os_path_join folder (csv_name name))) folder)) /\
  (forall g, allowed (EToFile (os_path_join folder name) g)) /\
  (forall g, allowed (EToCsv (os_path_join folder (csv_name name)) g)).

(** A character of a file name: no comma and no separator. *)
Definition name_char (c : N) : Prop := c <> comma /\ c <> slash.

(** The path a call names, if it names one. *)
Definition path_of (e : event) : option str :=
  match e with
  | EMakedirs p | EToFile p _ | EToCsv p _ => Some p
  | _ => None
  end.

(** The regions a trace announces, in order (line 129). *)
Definition announced (evs : list event) : list str :=
  omap (fun e => match e with EPrint (MsgExtracting p) => Some p | _ => None end) evs.

(** A call that writes a file. *)
Definition is_write (e : event) : bool :=
  match e with EToFile _ _ | EToCsv _ _ => true | _ => false end.

(** The answers of the feature source after which there is nothing to
    process: an exception, [None], an empty collection. *)
Definition no_features (r : outcome (option GeoDataFrame)) : bool :=
  match r with
  | Raised _ => true
  | Returned None => true
  | Returned (Some g) => empty g
  end.

(** A run only appends to the trace, and what it appends satisfies [phi]. *)
Definition appends (phi : event -> Prop) (w w' : world) : Prop :=
  exists evs, trace w' = trace w ++ evs /\ Forall phi evs.

(** A run leaves every directory in place. *)
Definition keeps_dirs (w w' : world) : Prop :=
  forall k, isdir (fs w) k = true -> isdir (fs w') k = true.

(** [R] relates the world before any run of [m] to the world after it. *)
Definition always {A} (R : relation world) (m : M A) : Prop :=
  forall w, R w (m w).2.

(** ** Sample inputs *)

Module Sample.

Definition record (amenity : cell) (osmid : Z) (geom : geometry) : row :=
  list_to_map
    [(lit "amenity", amenity); (lit "osmid", VInt osmid);
     (lit "geometry", VGeom geom)].

(** Three points, two of them with the same identifier. *)
Definition testville : GeoDataFrame :=
  {| columns := [lit "amenity"; lit "osmid"; lit "geometry"];
     rows := [record (VStr (lit "cafe")) 1 (Point 0 0);
              record Null 1 (Point 1 1);
              record (VStr (lit "cafe")) 2 (Point 2 2)] |}.

(** A feature source that answers by [answer]; reprojection and writers
    never fail. *)
Definition source (answer : str -> outcome (option GeoDataFrame)) : env :=
  {| features_from_place := fun q _ => answer q;
     to_crs_4326 := fun g => Returned g;
     to_file_error := fun _ _ => None;
     to_csv_error := fun _ _ => None |}.

(** A source that always raises, and one that always answers [testville]. *)
Definition failing : env := source (fun _ => Raised (OtherError (lit "ConnectionError"))).
Definition cafes : env := source (fun _ => Returned (Some testville)).

(** An empty working directory, nothing done yet. *)
Definition fresh : world := {| fs := ∅; trace := [] |}.

(** A working directory where a regular file stands at [out/A]. *)
Definition blocked : world :=
  {| fs := {[ (false, [lit "out"; lit "A"]) := File (CSV (empty_frame [])) ]};
     trace := [] |}.

End Sample.


(** ** Notions the further statements use *)

(** A word of [split()]: not empty, no whitespace in it. *)
Definition is_word (w : str) : Prop :=
  w <> [] /\ Forall (fun c => isspace c = false) w.


(** Lines 36-39: the collection after the attempt to reproject it. *)
Definition reprojected (E : env) (g : GeoDataFrame) : GeoDataFrame :=
  match to_crs_4326 E g with
  | Returned g' => g'
  | Raised _ => g
  end.

(** What the geometry-type stage returns. *)
Definition kept_points (g : GeoDataFrame) : GeoDataFrame :=
  if has_point g
  then {| columns := columns g;
          rows := filter (fun r => point_record r = true) (rows g) |}
  else g.

(** What the deduplication stage returns. *)
Definition deduped (g : GeoDataFrame) : GeoDataFrame :=
  if has_column (lit "osmid") g then drop_duplicates (lit "osmid") g else g.

(** A record whose geometry is present and is not a point. *)
Definition shape_record (r : row) : bool :=
  match geom_of r with Some (Shape _ _) => true | _ => false end.

(** A record with the coordinates of its point in [latitude] and
    [longitude]. *)
Definition with_coords (r : row) : row :=
  match geom_of r with
  | Some (Point x y) =>
      <[lit "longitude" := VFloat x]> (<[lit "latitude" := VFloat y]> r)
  | _ => r
  end.

(** The world after printing the messages [ms]. *)
Definition logged (w : world) (ms : list message) : world :=
  {| fs := fs w; trace := trace w ++ (EPrint <$> ms) |}.

(** Lines 66-120: all the exports of one collection. *)
Definition all_exports (E : env) (g : GeoDataFrame) (query_place : str)
    (tags_dict : tags) (output_folder : str) : M unit :=
  export_combined E g (clean_name query_place) output_folder ;;
  for_each tags_dict
    (export_tag E g query_place (clean_name query_place) output_folder).

(** A call to the feature source. *)
Definition is_query (e : event) : bool :=
  match e with EQuery _ _ => true | _ => false end.

(** A run leaves every regular file as it was and creates none. *)
Definition keeps_files (w w' : world) : Prop :=
  forall k c, fs w' !! k = Some (File c) <-> fs w !! k = Some (File c).


(** The world once the output folder [p] has been asked for and the calls
    [evs] have followed. *)
Definition started (w : world) (p : str) (evs : list event) : world :=
  {| fs := (fs_makedirs p (fs w)).2; trace := trace w ++ EMakedirs p :: evs |}.

(** Lines 23 and 26: the announcement and the query. *)
Definition asked (q : str) (tags_dict : tags) : list event :=
  [EPrint (MsgQuerying q); EQuery q tags_dict].


(** ** More sample inputs *)

Module Cases.

(** Two parks, both polygons. *)
Definition parks : GeoDataFrame :=
  {| columns := [lit "leisure"; lit "geometry"];
     rows := [list_to_map [(lit "leisure", VStr (lit "park"));
                           (lit "geometry", VGeom (Shape Polygon [0; 0; 1; 1]%Z))];
              list_to_map [(lit "leisure", VStr (lit "park"));
                           (lit "geometry", VGeom (Shape MultiPolygon []))]] |}.

(** A source that answers [parks]. *)
Definition park_source : env := Sample.source (fun _ => Returned (Some parks)).

(** The source of [Sample.cafes] with writers that always fail. *)
Definition read_only : env :=
  {| features_from_place := fun _ _ => Returned (Some Sample.testville);
     to_crs_4326 := fun g => Returned g;
     to_file_error := fun _ _ => Some (OtherError (lit "DriverError"));
     to_csv_error := fun _ _ => Some (OtherError (lit "PermissionError")) |}.

End Cases.


(** The calls the export of one tag may make: every file it writes holds
    the subset of that tag, which is then not empty and whose key is a
    column; it never queries. *)
Definition tag_event (g : GeoDataFrame) (key : str) (values : selector)
    (e : event) : Prop :=
  match e with
  | EToFile _ sub =>
      has_column key g = true /\
      empty (subset_for key values g) = false /\
      sub = subset_for key values g
  | EToCsv _ sub =>
      has_column key g = true /\
      empty (subset_for key values g) = false /\
      sub = drop_column (lit "geometry") (subset_for key values g)
  | EQuery _ _ => False
  | _ => True
  end.


(** The folder [p] is there: making it again returns and changes nothing. *)
Definition folder_ready (p : str) (w : world) : Prop :=
  fs_makedirs p (fs w) = (Returned tt, fs w).

(** The GeoJSON file name of one tag (line 106). *)
Definition tag_fname (place_short key : str) : str :=
  place_short ++ lit "_" ++ clean_name key ++ lit ".geojson".


(** ** The script (lines 133-163) *)

Module Main.

Definition tags : list (list N * selector) :=
  [(lit "amenity",
    SelSeq (lit <$>
      ["school"; "university"; "hospital"; "clinic"; "restaurant"; "cafe";
       "library"; "police"; "post_office"; "bank"; "bar"; "marketplace";
       "market"; "theatre"; "cinema"; "dentist"; "childcare"; "college";
       "nursing_home"; "pharmacy"; "doctors"; "place_of_worship"; "grave_yard";
       "parking"; "fast_food"; "fire_station"; "theatre"; "ferry_terminal";
       "waste_dump_site"; "waste_transfer_station"]%string));
   (lit "leisure",
    SelSeq (lit <$>
      ["park"; "garden"; "sports_centre"; "stadium"; "swimming_pool"; "track";
       "playground"; "picnic_site"; "gym"; "community_centre"; "arts_centre";
       "music_venue"; "nightclub"; "nature_reserve"; "fitness_centre";
       "golf_course"; "sports_hall"; "dog_park"; "water_park";
       "miniature_golf"; "ice_rink"; "sauna"; "resort"; "bowling alley";
       "recreation_ground"]%string));
   (lit "shop",
    SelSeq (lit <$>
      ["supermarket"; "mall"; "department_store"; "clothes"; "bookstore";
       "bakery"; "butcher"]%string));
   (lit "public_transport",
    SelSeq (lit <$>
      ["station"; "platform"; "subway_entrance"; "stop_position"]%string));
   (lit "highway", SelSeq [lit "bus_stop"]);
   (lit "railway", SelSeq [lit "station"]);
   (lit "landuse", SelSeq [lit "cemetery"]);
   (lit "natural", SelSeq (lit <$> ["water"; "wood"; "beach"]%string));
   (lit "tourism",
    SelSeq (lit <$> ["hotel"; "museum"; "viewpoint"; "attraction"]%string))].

Definition provinces : list (list N) :=
  lit <$>
    ["Greater Vancouver, British Columbia"; "Calgary, Alberta";
     "Edmonton, Alberta"; "Toronto, Ontario"; "Ottawa, Ontario"]%string.

Definition output_folder : list N := lit "osm_helper_data".

(** Line 163 *)
Definition main (E : env) : M unit :=
  extract_for_provinces E provinces tags output_folder.

End Main.


(** The environment [E] with a reprojection that returns every collection
    unchanged. *)
Definition without_reprojection (E : env) : env :=
  {| features_from_place := features_from_place E;
     to_crs_4326 := fun g => Returned g;
     to_file_error := to_file_error E;
     to_csv_error := to_csv_error E |}.

(** The query of one region. *)
Definition query_event (tags_dict : tags) (prov : str) : event :=
  EQuery (query_place_of prov) tags_dict.

(** ** Notions of the layout of the output *)

(** [sub in s] *)
Fixpoint contains (sub s : str) : bool :=
  startswith sub s ||
  match s with
  | [] => false
  | _ :: s' => contains sub s'
  end.

(** The folder of one region: the [folder] of the Batch Driver (line 128)
    once line 18 has taken its commas out. *)
Definition region_folder (output_root_folder prov : str) : str :=
  replace (lit ",") [] (os_path_join output_root_folder (clean_name prov)).

(** What stands between the base name and the extension of a file name,
    after the [_]: [all_amenities] (line 69) or the cleaned key of a tag
    (lines 105-106). *)
Definition stems (tags_dict : tags) : list str :=
  lit "all_amenities"
  :: ((fun item : list N * selector => clean_name item.1) <$> tags_dict).

(** * Properties *)

(** ** The string and path functions on examples *)

Example replace_all_occurrences :
  replace (lit ".geojson") (lit ".csv") (lit "x.geojson_all.geojson")
  = lit "x.csv_all.csv".
Proof. reflexivity. Qed.

Example replace_does_not_overlap :
  replace (lit "aa") (lit "b") (lit "aaa") = lit "ba".
Proof. reflexivity. Qed.

Example strip_keeps_inner_whitespace :
  strip (lit "  a  b ") = lit "a  b".
Proof. reflexivity. Qed.

Example split_drops_empty_words :
  split (lit "  Greater   Vancouver ") = [lit "Greater"; lit "Vancouver"].
Proof. reflexivity. Qed.

Example clean_name_calgary :
  clean_name (lit "Calgary, Alberta") = lit "Calgary_Alberta".
Proof. reflexivity. Qed.

Example clean_name_padded :
  clean_name (lit "  a/b , c  ") = lit "a_b__c".
Proof. reflexivity. Qed.

Example os_path_join_cases :
  os_path_join (lit "out") (lit "A") = lit "out/A" /\
  os_path_join (lit "out/") (lit "A") = lit "out/A" /\
  os_path_join [] (lit "A") = lit "A" /\
  os_path_join (lit "out") (lit "/A") = lit "/A".
Proof. by repeat split. Qed.

Example os_path_dirname_cases :
  os_path_dirname (lit "out/A/f.csv") = lit "out/A" /\
  os_path_dirname (lit "f.csv") = [] /\
  os_path_dirname (lit "/f.csv") = lit "/" /\
  os_path_dirname (lit "out//f.csv") = lit "out".
Proof. by repeat split. Qed.

Example resolve_cases :
  resolve (lit "out/A/") = (false, [lit "out"; lit "A"]) /\
  resolve (lit "/out//./A") = (true, [lit "out"; lit "A"]).
Proof. by repeat split. Qed.

(** ** Strings *)

Section StrFacts.

Local Open Scope N_scope.

Lemma replace_char_char (c d : N) (s : str) :
  replace [c] [d] s = List.map (fun x => if x =? c then d else x) s.
Proof.
  unfold replace.
  induction s as [|a s IH]; simpl; [done|].
  rewrite (N.eqb_sym c a), andb_true_r.
  destruct (a =? c); simpl; by rewrite IH.
Qed.

Lemma replace_char_nil (c : N) (s : str) :
  replace [c] [] s = List.filter (fun x => negb (x =? c)) s.
Proof.
  unfold replace.
  induction s as [|a s IH]; simpl; [done|].
  rewrite (N.eqb_sym c a), andb_true_r.
  destruct (a =? c); simpl; by rewrite IH.
Qed.

Lemma lstrip_head_ok s : head_ok (lstrip s).
Proof.
  induction s as [|c s IH]; simpl; [done|].
  destruct (isspace c) eqn:Hc; [done|]. simpl. done.
Qed.

Lemma head_ok_lstrip s : head_ok s -> lstrip s = s.
Proof. destruct s as [|c s]; simpl; [done|]. by intros ->. Qed.

Lemma rstrip_head_ok s : head_ok s -> head_ok (rstrip s).
Proof.
  destruct s as [|c s]; simpl; [done|]. intros Hc.
  destruct (rstrip s); simpl; [by rewrite Hc|done].
Qed.

Lemma rstrip_idem s : rstrip (rstrip s) = rstrip s.
Proof.
  induction s as [|c s IH]; simpl; [done|].
  destruct (rstrip s) as [|d t] eqn:Hr.
  - destruct (isspace c) eqn:Hc; simpl; [done|]. by rewrite Hc.
  - simpl in *. destruct (rstrip t) as [|d' t'] eqn:Ht.
    + destruct (isspace d); [done|]. by inversion IH.
    + by rewrite IH.
Qed.

Lemma strip_fixed s : lstrip (strip s) = strip s /\ rstrip (strip s) = strip s.
Proof.
  unfold strip. split.
  - apply head_ok_lstrip, rstrip_head_ok, lstrip_head_ok.
  - apply rstrip_idem.
Qed.

Lemma lstrip_suffix s : lstrip s `suffix_of` s.
Proof.
  induction s as [|c s IH]; simpl; [done|].
  destruct (isspace c); [by apply suffix_cons_r|done].
Qed.

Lemma rstrip_prefix s : rstrip s `prefix_of` s.
Proof.
  induction s as [|c s IH]; simpl; [done|].
  destruct (rstrip s) as [|d t].
  - destruct (isspace c); [apply prefix_nil|]. apply prefix_cons, prefix_nil.
  - by apply prefix_cons.
Qed.

Lemma elem_of_strip c s : c ∈ strip s -> c ∈ s.
Proof.
  unfold strip. intros H.
  eapply elem_of_suffix; [|apply lstrip_suffix].
  eapply elem_of_prefix; [|apply rstrip_prefix]. done.
Qed.

(** Replacing the spaces of a stripped string leaves it stripped. *)
Lemma unspace_not_space x : isspace x = false -> unspace x = x.
Proof.
  unfold unspace. destruct (x =? space) eqn:E; [|done].
  apply N.eqb_eq in E. subst. done.
Qed.

Lemma lstrip_unspace s : lstrip s = s -> lstrip (List.map unspace s) = List.map unspace s.
Proof.
  destruct s as [|c s]; simpl; [done|].
  destruct (isspace c) eqn:Hc.
  - intros H. pose proof (lstrip_suffix s) as Hs. rewrite H in Hs.
    apply suffix_length in Hs. simpl in Hs. lia.
  - intros _. by rewrite (unspace_not_space c Hc), Hc.
Qed.

Lemma rstrip_unspace s : rstrip s = s -> rstrip (List.map unspace s) = List.map unspace s.
Proof.
  induction s as [|c s IH]; simpl; [done|].
  destruct (rstrip s) as [|d t] eqn:Hr.
  - destruct (isspace c) eqn:Hc; [done|].
    intros [= <-]. simpl. by rewrite (unspace_not_space c Hc), Hc.
  - intros [= Ht]. rewrite IH by done. rewrite <- Ht. done.
Qed.

End StrFacts.

(** ** Name Normalizer *)

Lemma clean_name_unfold s :
  clean_name s =
  List.map unspace
    (strip (List.map (fun x => if N.eqb x slash then underscore else x)
              (List.filter (fun x => negb (N.eqb x comma)) s))).
Proof.
  unfold clean_name.
  change (lit " ") with [space]. change (lit "_") with [underscore].
  change (lit "/") with [slash]. change (lit ",") with [comma].
  by rewrite replace_char_char, replace_char_char, replace_char_nil.
Qed.

Lemma clean_name_chars s c :
  c ∈ clean_name s -> c <> comma /\ c <> slash /\ c <> space.
Proof.
  rewrite clean_name_unfold.
  rewrite list_elem_of_In, in_map_iff. intros (x & <- & Hx).
  apply list_elem_of_In, elem_of_strip, list_elem_of_In in Hx.
  apply in_map_iff in Hx as (y & <- & Hy).
  apply filter_In in Hy as [_ Hy]. apply negb_true_iff, N.eqb_neq in Hy.
  unfold unspace.
  destruct (N.eqb y slash) eqn:E1.
  - by vm_compute.
  - apply N.eqb_neq in E1.
    destruct (N.eqb y space) eqn:E2; [by vm_compute|].
    apply N.eqb_neq in E2. done.
Qed.

Lemma clean_name_fixed (t : str) :
  (forall c, c ∈ t -> c <> comma /\ c <> slash /\ c <> space) ->
  lstrip t = t -> rstrip t = t -> clean_name t = t.
Proof.
  intros Hc Hl Hr. rewrite clean_name_unfold.
  assert (List.filter (fun x => negb (N.eqb x comma)) t = t) as ->.
  { apply forallb_filter_id, forallb_forall. intros x Hx.
    apply list_elem_of_In, Hc in Hx as (Hx & _ & _).
    by apply negb_true_iff, N.eqb_neq. }
  assert (List.map (fun x => if N.eqb x slash then underscore else x) t = t) as ->.
  { rewrite <- (map_id t) at 2. apply map_ext_in. intros x Hx.
    apply list_elem_of_In, Hc in Hx as (_ & Hx & _).
    apply N.eqb_neq in Hx. by rewrite Hx. }
  unfold strip. rewrite Hl, Hr.
  rewrite <- (map_id t) at 2. apply map_ext_in. intros x Hx.
  apply list_elem_of_In, Hc in Hx as (_ & _ & Hx).
  apply N.eqb_neq in Hx. unfold unspace. by rewrite Hx.
Qed.

(** C6: the output of [clean_name] holds no comma and no path separator, and
    [clean_name] leaves its own output unchanged. *)
Theorem clean_name_safe_idempotent (s : str) :
  (comma ∉ clean_name s) /\
  (slash ∉ clean_name s) /\
  clean_name (clean_name s) = clean_name s.
Proof.
  split; [|split].
  - intros H. by apply clean_name_chars in H as (H & _).
  - intros H. by apply clean_name_chars in H as (_ & H & _).
  - apply clean_name_fixed.
    + apply clean_name_chars.
    + rewrite clean_name_unfold. apply lstrip_unspace, strip_fixed.
    + rewrite clean_name_unfold. apply rstrip_unspace, strip_fixed.
Qed.

(** ** Boolean indexing, subsets and deduplication *)

Section FrameFacts.

Implicit Types (g : GeoDataFrame) (rs : list row) (key : str).

Lemma boolean_index_rows_filter (p : row -> bool) rs :
  boolean_index_rows rs (p <$> rs) = filter (fun r => p r = true) rs.
Proof.
  induction rs as [|r rs IH]; [done|]. csimpl.
  rewrite filter_cons. destruct (p r) eqn:Hp.
  - rewrite decide_True by done. by rewrite IH.
  - rewrite decide_False by congruence. done.
Qed.

Lemma boolean_index_series (p : cell -> bool) key g :
  rows (boolean_index g (p <$> series key g))
  = filter (fun r => p (at_col key r) = true) (rows g).
Proof.
  unfold series. rewrite <- list_fmap_compose.
  apply (boolean_index_rows_filter (p ∘ at_col key)).
Qed.

Lemma boolean_index_rows_sublist rs mask :
  boolean_index_rows rs mask `sublist_of` rs.
Proof.
  revert mask. induction rs as [|r rs IH]; intros [|[] mask]; simpl;
    try apply sublist_nil_l.
  - by apply sublist_skip.
  - by apply sublist_cons.
Qed.

Lemma notnull_spec c : notnull c = true <-> c <> Null.
Proof. by destruct c. Qed.

Lemma eq_str_spec v c : eq_str v c = true <-> c = VStr v.
Proof.
  destruct c; simpl; try (split; [done|congruence]).
  rewrite bool_decide_eq_true. split; congruence.
Qed.

Lemma isin_spec vs c : isin vs c = true <-> c ∈ (VStr <$> vs).
Proof.
  rewrite list_elem_of_fmap.
  destruct c; simpl;
    try (split; [done|by intros (v & ? & _)]).
  rewrite bool_decide_eq_true. split.
  - intros H. by exists s.
  - by intros (v & [= ->] & H).
Qed.

(** *** Deduplication *)

(** The rows [drop_duplicates] keeps when the values of [seen] count as
    already met. *)
Lemma dedup_rows_cons key (seen : list cell) r rs :
  boolean_index_rows (r :: rs)
    (negb <$> duplicated_from seen (at_col key <$> (r :: rs)))
  = let rest := boolean_index_rows rs
        (negb <$> duplicated_from (at_col key r :: seen) (at_col key <$> rs)) in
    if bool_decide (at_col key r ∈ seen) then rest else r :: rest.
Proof. csimpl. by destruct (bool_decide _). Qed.

Lemma dedup_rows_fresh key rs : forall seen c,
  c ∈ at_col key <$>
      boolean_index_rows rs (negb <$> duplicated_from seen (at_col key <$> rs)) ->
  c ∉ seen.
Proof.
  induction rs as [|r rs IH]; intros seen c.
  - simpl. by intros ?%elem_of_nil.
  - rewrite dedup_rows_cons. simpl. case_bool_decide as Hin.
    + intros H%IH. set_solver.
    + rewrite fmap_cons, elem_of_cons. intros [->|H%IH]; [done|set_solver].
Qed.

Lemma dedup_rows_NoDup key rs : forall seen,
  NoDup (at_col key <$>
    boolean_index_rows rs (negb <$> duplicated_from seen (at_col key <$> rs))).
Proof.
  induction rs as [|r rs IH]; intros seen.
  - simpl. constructor.
  - rewrite dedup_rows_cons. simpl. case_bool_decide as Hin; [apply IH|].
    rewrite fmap_cons. constructor; [|apply IH].
    intros H%dedup_rows_fresh. set_solver.
Qed.

Lemma dedup_rows_first key rs : forall seen c,
  c ∉ seen ->
  first_with key c
    (boolean_index_rows rs (negb <$> duplicated_from seen (at_col key <$> rs)))
  = first_with key c rs.
Proof.
  unfold first_with.
  induction rs as [|r rs IH]; intros seen c Hc; [done|].
  rewrite dedup_rows_cons. simpl. case_bool_decide as Hin.
  - rewrite bool_decide_eq_false_2 by (by intros <-).
    apply IH, not_elem_of_cons. split; [by intros ->|done].
  - simpl. case_bool_decide as Heq; [done|].
    apply IH, not_elem_of_cons. split; [congruence|done].
Qed.

(** *** Geometry types *)

Lemma is_point_spec (o : option geometry) :
  is_point o = match o with Some (Point _ _) => true | _ => false end.
Proof.
  unfold is_point. destruct o as [[x y|k cs]|]; [|destruct k|]; by vm_compute.
Qed.

Lemma is_point_geom_of r : is_point (geom_of r) = point_record r.
Proof. by rewrite is_point_spec. Qed.

Lemma elem_of_count_one (k v : str) acc :
  k ∈ (count_one v acc).*1 <-> k = v \/ k ∈ acc.*1.
Proof.
  induction acc as [|[k' n] acc IH]; simpl.
  - rewrite list_elem_of_singleton, elem_of_nil. tauto.
  - case_bool_decide as Hk; simpl; rewrite !elem_of_cons.
    + subst. tauto.
    + rewrite IH. tauto.
Qed.

Lemma elem_of_value_counts (v : str) (l : list (option str)) :
  v ∈ (value_counts l).*1 <-> Some v ∈ l.
Proof.
  unfold value_counts.
  enough (forall acc,
    v ∈ (fold_left (fun acc o =>
           match o with Some v => count_one v acc | None => acc end) l acc).*1
    <-> v ∈ acc.*1 \/ Some v ∈ l) as H.
  { rewrite H. simpl. rewrite elem_of_nil. tauto. }
  induction l as [|o l IH]; intros acc; simpl.
  - rewrite elem_of_nil. tauto.
  - rewrite IH, elem_of_cons. destruct o as [u|].
    + rewrite elem_of_count_one. naive_solver.
    + naive_solver.
Qed.

Lemma point_in_index g :
  bool_decide (lit "Point" ∈ (value_counts (geom_type <$> geometry_series g)).*1)
  = existsb point_record (rows g).
Proof.
  apply eq_true_iff_eq.
  rewrite bool_decide_eq_true, elem_of_value_counts, existsb_exists.
  unfold geometry_series. rewrite <- list_fmap_compose, list_elem_of_fmap.
  split.
  - intros (r & Hr & Hin). exists r. split; [by apply list_elem_of_In|].
    rewrite <- is_point_geom_of. unfold is_point. simpl in Hr.
    by apply bool_decide_eq_true.
  - intros (r & Hin & Hr). exists r. split; [|by apply list_elem_of_In].
    rewrite <- is_point_geom_of in Hr. unfold is_point in Hr.
    by apply bool_decide_eq_true in Hr.
Qed.

End FrameFacts.

(** ** The stages of the Region Extractor *)

(** C3: the subset of a category holds exactly the records whose column is
    not null ([True]), equals the string, or is one of the strings of the
    sequence, in their order in the collection; any other selector gives the
    empty collection. *)
Theorem subset_for_selector (key : str) (values : selector) (g : GeoDataFrame) :
  columns (subset_for key values g) = columns g /\
  rows (subset_for key values g) =
    match values with
    | SelTrue => filter (fun r => at_col key r <> Null) (rows g)
    | SelStr v => filter (fun r => at_col key r = VStr v) (rows g)
    | SelSeq vs => filter (fun r => at_col key r ∈ (VStr <$> vs)) (rows g)
    | SelOther => []
    end.
Proof.
  split; [by destruct values|].
  destruct values as [|v|vs|]; unfold subset_for; [| | |done];
    rewrite boolean_index_series; apply list_filter_iff; intros r.
  - apply notnull_spec.
  - apply eq_str_spec.
  - apply isin_spec.
Qed.

(** C8, as the code has it: the subset of a category has the columns of the
    collection and its records are records of the collection, in the same
    order; nothing makes it smaller than the collection. *)
Theorem subset_for_sublist (key : str) (values : selector) (g : GeoDataFrame) :
  columns (subset_for key values g) = columns g /\
  rows (subset_for key values g) `sublist_of` rows g.
Proof.
  split; [by destruct values|].
  destruct values; simpl;
    try apply boolean_index_rows_sublist; apply sublist_nil_l.
Qed.

(** C5: the geometry-type stage returns the records with a point geometry
    when the collection has one, and the collection itself when it has
    none; it touches no file. *)
Theorem filter_points_keeps_points (g : GeoDataFrame) (w : world) :
  exists w',
    filter_points g w
    = (Returned (if has_point g
                 then {| columns := columns g;
                         rows := filter (fun r => point_record r = true) (rows g) |}
                 else g), w')
    /\ fs w' = fs w.
Proof.
  unfold filter_points, has_point.
  destruct (has_column (lit "geometry") g); simpl;
    [|eexists; split; reflexivity].
  unfold bind, print, emit, ret. simpl.
  rewrite point_in_index.
  destruct (existsb point_record (rows g)); simpl.
  - eexists. split.
    + do 2 f_equal. unfold boolean_index. f_equal.
      unfold geometry_series. rewrite <- list_fmap_compose.
      rewrite <- boolean_index_rows_filter.
      f_equal. apply list_fmap_ext. intros _ r _. apply is_point_geom_of.
    + reflexivity.
  - eexists. split; reflexivity.
Qed.

(** C4: with an [osmid] column, deduplication keeps the records of the
    collection in their order, keeps no identifier twice, and for every
    identifier keeps the first record that carries it; without the column
    the collection, and so its number of records, is unchanged. *)
Theorem dedup_osmid_keeps_first (g : GeoDataFrame) (w : world) :
  exists g' w',
    dedup_osmid g w = (Returned g', w') /\
    columns g' = columns g /\
    if has_column (lit "osmid") g then
      rows g' `sublist_of` rows g /\
      NoDup (series (lit "osmid") g') /\
      forall c, first_with (lit "osmid") c (rows g')
                = first_with (lit "osmid") c (rows g)
    else g' = g /\ len g' = len g.
Proof.
  unfold dedup_osmid.
  destruct (has_column (lit "osmid") g); [|by eexists _, _].
  unfold bind, print, emit, ret. simpl.
  eexists _, _. split; [done|]. split; [done|].
  unfold drop_duplicates, duplicated, series. simpl.
  split; [apply boolean_index_rows_sublist|].
  split; [apply dedup_rows_NoDup|].
  intros c. apply dedup_rows_first, not_elem_of_nil.
Qed.

(** ** Invariants of runs *)

Section Always.

Context (R : relation world) (allowed : event -> Prop).
Hypothesis R_refl : forall w, R w w.
Hypothesis R_trans : forall w1 w2 w3, R w1 w2 -> R w2 w3 -> R w1 w3.
Hypothesis R_emit : forall e, allowed e -> always R (emit e).
Hypothesis R_makedirs : forall p, always R (on_fs (fs_makedirs p)).
Hypothesis R_write : forall p c, always R (on_fs (fs_write p c)).
Hypothesis allowed_print :
  forall m, (forall prov_clean, m <> MsgExtracting prov_clean) -> allowed (EPrint m).

Lemma always_ret {A} (a : A) : always R (ret a).
Proof. intros w. apply R_refl. Qed.

Lemma always_raise {A} e : always R (@raise A e).
Proof. intros w. apply R_refl. Qed.

Lemma always_lift {A} (r : outcome A) : always R (lift r).
Proof. intros w. apply R_refl. Qed.

Lemma always_bind {A B} (m : M A) (k : A -> M B) :
  always R m -> (forall a, always R (k a)) -> always R (bind m k).
Proof.
  intros Hm Hk w. unfold bind. specialize (Hm w).
  destruct (m w) as [[a|e] w1]; simpl in *; [|done].
  eapply R_trans; [done|apply Hk].
Qed.

Lemma always_attempt {A} (m : M A) : always R m -> always R (attempt m).
Proof.
  intros Hm w. unfold attempt. specialize (Hm w). by destruct (m w).
Qed.

Lemma always_for_each {A} (l : list A) (body : A -> M unit) :
  (forall x, x ∈ l -> always R (body x)) -> always R (for_each l body).
Proof.
  induction l as [|x l IH]; intros H; simpl; [apply always_ret|].
  apply always_bind; [apply H; left|intros _].
  apply IH. intros y Hy. apply H. by right.
Qed.

Lemma always_print m :
  (forall prov_clean, m <> MsgExtracting prov_clean) -> always R (print m).
Proof. intros H. by apply R_emit, allowed_print. Qed.

Lemma always_try_or_print body msg :
  always R body -> (forall e prov_clean, msg e <> MsgExtracting prov_clean) ->
  always R (try_or_print body msg).
Proof.
  intros Hb Hm. apply always_bind; [by apply always_attempt|].
  intros [[]|e]; [apply always_ret|apply always_print, Hm].
Qed.

Lemma always_os_makedirs p : allowed (EMakedirs p) -> always R (os_makedirs p).
Proof. intros H. apply always_bind; [by apply R_emit|intros _; apply R_makedirs]. Qed.

Lemma always_to_file E g p : allowed (EToFile p g) -> always R (to_file E g p).
Proof.
  intros H. apply always_bind; [by apply R_emit|intros _].
  destruct (to_file_error E p g); [apply always_raise|apply R_write].
Qed.

Lemma always_to_csv E g p : allowed (EToCsv p g) -> always R (to_csv E g p).
Proof.
  intros H. apply always_bind; [by apply R_emit|intros _].
  destruct (to_csv_error E p g); [apply always_raise|apply R_write].
Qed.

Lemma always_filter_points g : always R (filter_points g).
Proof.
  unfold filter_points.
  destruct (has_column _ g); [|apply always_ret].
  apply always_bind; [by apply always_print|intros _].
  case_bool_decide;
    (apply always_bind; [by apply always_print|intros _; apply always_ret]).
Qed.

Lemma always_extract_coordinates g : always R (extract_coordinates g).
Proof.
  unfold extract_coordinates.
  destruct (has_column _ g); [|apply always_ret].
  destruct (geometry_y _); [|apply always_raise].
  destruct (geometry_x _); [apply always_ret|apply always_raise].
Qed.

Lemma always_dedup_osmid g : always R (dedup_osmid g).
Proof.
  unfold dedup_osmid.
  destruct (has_column _ g); [|apply always_ret].
  apply always_bind; [by apply always_print|intros _; apply always_ret].
Qed.

Lemma always_export_combined E g place_short folder :
  name_allowed allowed folder (place_short ++ lit "_all_amenities.geojson") ->
  always R (export_combined E g place_short folder).
Proof.
  intros (H1 & H2 & H3 & H4). unfold export_combined.
  apply always_bind; [|intros _]; (apply always_try_or_print; [|done]);
    (apply always_bind; [by apply always_os_makedirs|intros _]).
  - apply always_to_file, H3.
  - apply always_to_csv, H4.
Qed.

Lemma always_export_tag E g query_place place_short folder item :
  name_allowed allowed folder
    (place_short ++ lit "_" ++ clean_name item.1 ++ lit ".geojson") ->
  always R (export_tag E g query_place place_short folder item).
Proof.
  intros (H1 & H2 & H3 & H4). destruct item as [key values].
  unfold export_tag.
  destruct (negb _); [by apply always_print|].
  destruct (empty _); [by apply always_print|].
  apply always_bind; [|intros _]; (apply always_try_or_print; [|done]);
    (apply always_bind; [by apply always_os_makedirs|intros _]).
  - apply always_to_file, H3.
  - apply always_to_csv, H4.
Qed.

Lemma always_process_collection E g query_place tags_dict folder :
  (forall name, name ∈ geojson_names (clean_name query_place) tags_dict ->
                name_allowed allowed folder name) ->
  always R (process_collection E g query_place tags_dict folder).
Proof.
  intros H. unfold process_collection.
  apply always_bind; [apply always_attempt, always_lift|intros r].
  apply always_bind; [apply always_filter_points|intros g1].
  apply always_bind; [apply always_extract_coordinates|intros g2].
  apply always_bind; [apply always_dedup_osmid|intros g3].
  apply always_bind; [apply always_export_combined, H; left|intros _].
  apply always_bind; [|intros _; apply always_ret].
  apply always_for_each. intros item Hitem.
  apply always_export_tag, H. right.
  apply list_elem_of_fmap. by exists item.
Qed.

Lemma always_extract_amenities_for_place E place_name tags_dict output_folder :
  (forall e, extractor_event place_name tags_dict output_folder e -> allowed e) ->
  always R (extract_amenities_for_place E place_name tags_dict output_folder).
Proof.
  intros H. unfold extract_amenities_for_place.
  apply always_bind; [apply always_os_makedirs, H; by left|intros _].
  apply always_bind; [by apply always_print|intros _].
  apply always_bind.
  { apply always_attempt, always_bind; [|intros _; apply always_lift].
    apply R_emit, H. done. }
  intros [[g|]|e].
  - destruct (empty g).
    + apply always_bind; [by apply always_print|intros _; apply always_ret].
    + apply always_process_collection. intros name Hname.
      repeat split; try intros g'; apply H; simpl; eauto 6.
  - apply always_bind; [by apply always_print|intros _; apply always_ret].
  - apply always_bind; [by apply always_print|intros _; apply always_ret].
Qed.

End Always.

(** ** File system *)

Lemma mkdir_chain_spec todo : forall abs pre f r f',
  mkdir_chain abs pre todo f = (r, f') ->
  (forall k, f !! k = Some Dir -> f' !! k = Some Dir) /\
  (forall k c, f' !! k = Some (File c) <-> f !! k = Some (File c)) /\
  (r = Returned tt -> todo <> [] -> f' !! (abs, pre ++ todo) = Some Dir).
Proof.
  induction todo as [|c todo IH]; intros abs pre f r f' Hrun; simpl in Hrun.
  - by inversion Hrun.
  - destruct (f !! (abs, pre ++ [c])) as [[|c0]|] eqn:Hhere.
    + apply IH in Hrun as (Hd & Hf & Hnew). split; [done|]. split; [done|].
      intros Hr _. destruct todo as [|c' todo].
      * simpl in *. apply Hd. done.
      * rewrite <- app_assoc in Hnew. by apply Hnew.
    + inversion Hrun; subst. split; [done|]. split; [done|]. by destruct todo.
    + apply IH in Hrun as (Hd & Hf & Hnew). split; [|split].
      * intros k Hk. apply Hd. rewrite lookup_insert_ne; [done|].
        intros <-. congruence.
      * intros k c1. rewrite Hf. destruct (decide ((abs, pre ++ [c]) = k)) as [<-|].
        -- rewrite lookup_insert_eq. split; [done|congruence].
        -- by rewrite lookup_insert_ne.
      * intros Hr _. destruct todo as [|c' todo].
        -- simpl in *. apply Hd. by rewrite lookup_insert_eq.
        -- rewrite <- app_assoc in Hnew. by apply Hnew.
Qed.

Lemma fs_makedirs_keeps_dirs p f k :
  isdir f k = true -> isdir (fs_makedirs p f).2 k = true.
Proof.
  unfold fs_makedirs. destruct p as [|c p]; [done|].
  destruct (mkdir_chain _ _ _ f) as [r f'] eqn:Hrun.
  apply mkdir_chain_spec in Hrun as (Hd & _ & _).
  unfold isdir. simpl. destruct (k.2); [done|].
  destruct (f !! k) as [[|?]|] eqn:Hk; [|done..].
  intros _. by rewrite (Hd _ Hk).
Qed.

Lemma fs_makedirs_keeps_files p f k c :
  (fs_makedirs p f).2 !! k = Some (File c) <-> f !! k = Some (File c).
Proof.
  unfold fs_makedirs. destruct p as [|c0 p]; [done|].
  destruct (mkdir_chain _ _ _ f) as [r f'] eqn:Hrun.
  apply mkdir_chain_spec in Hrun as (_ & Hf & _). apply Hf.
Qed.

Lemma fs_makedirs_isdir p f f' :
  fs_makedirs p f = (Returned tt, f') -> isdir f' (resolve p) = true.
Proof.
  unfold fs_makedirs. destruct p as [|c0 p]; [done|].
  intros Hrun. apply mkdir_chain_spec in Hrun as (_ & _ & Hnew).
  unfold isdir. destruct (resolve (c0 :: p)) as [abs comps]. simpl in *.
  destruct comps as [|c comps]; [done|]. by rewrite Hnew.
Qed.

Lemma mkdir_chain_made todo : forall abs pre f f',
  mkdir_chain abs pre todo f = (Returned tt, f') ->
  Forall (fun k => f' !! k = Some Dir) (chain_keys abs pre todo).
Proof.
  induction todo as [|c todo IH]; intros abs pre f f' Hrun; simpl in *.
  - constructor.
  - destruct (f !! (abs, pre ++ [c])) as [[|c0]|] eqn:Hhere.
    + constructor; [|by eapply IH].
      apply mkdir_chain_spec in Hrun as (Hd & _ & _). by apply Hd.
    + by destruct todo.
    + constructor; [|by eapply IH].
      apply mkdir_chain_spec in Hrun as (Hd & _ & _).
      apply Hd, lookup_insert_eq.
Qed.

Lemma mkdir_chain_noop todo : forall abs pre f,
  Forall (fun k => f !! k = Some Dir) (chain_keys abs pre todo) ->
  mkdir_chain abs pre todo f = (Returned tt, f).
Proof.
  induction todo as [|c todo IH]; intros abs pre f Hall; simpl in *; [done|].
  inversion Hall as [|? ? Hhere Hrest]; subst. rewrite Hhere. by apply IH.
Qed.

Lemma isdir_lookup f abs pre c :
  isdir f (abs, pre ++ [c]) = true <-> f !! (abs, pre ++ [c]) = Some Dir.
Proof.
  unfold isdir. simpl. destruct (pre ++ [c]) eqn:Hne; [by destruct pre|].
  by destruct (f !! (abs, l :: l0)) as [[|?]|].
Qed.

Lemma chain_keys_isdir abs pre todo f :
  Forall (fun k => f !! k = Some Dir) (chain_keys abs pre todo) <->
  Forall (fun k => isdir f k = true) (chain_keys abs pre todo).
Proof.
  revert pre. induction todo as [|c todo IH]; intros pre; simpl; [done|].
  by rewrite !Forall_cons, IH, isdir_lookup.
Qed.

(** Making the same directory again succeeds and changes nothing, as long
    as the directories made the first time are still there. *)
Lemma fs_makedirs_again p f f1 f2 :
  fs_makedirs p f = (Returned tt, f1) ->
  (forall k, isdir f1 k = true -> isdir f2 k = true) ->
  fs_makedirs p f2 = (Returned tt, f2).
Proof.
  unfold fs_makedirs. destruct p as [|c p]; [done|].
  intros Hrun Hkeep. apply mkdir_chain_noop, chain_keys_isdir.
  apply mkdir_chain_made, chain_keys_isdir in Hrun.
  eapply Forall_impl; [done|]. apply Hkeep.
Qed.

Lemma fs_write_keeps_dirs p c f k :
  isdir f k = true -> isdir (fs_write p c f).2 k = true.
Proof.
  unfold fs_write. destruct (resolve p).2 eqn:Hcomps; [done|].
  destruct (isdir f (resolve p)) eqn:Hd; [done|].
  destruct (isdir f (_, removelast _)); [|by destruct (isfile f _)].
  simpl. unfold isdir in *. destruct (k.2); [done|].
  rewrite Hcomps in Hd.
  destruct (decide (resolve p = k)) as [<-|Hne]; [congruence|].
  by rewrite lookup_insert_ne.
Qed.

(** ** The two invariants, for the Region Extractor *)

Lemma appends_same_trace phi w w' : trace w' = trace w -> appends phi w w'.
Proof. intros H. exists []. by rewrite app_nil_r. Qed.

Lemma appends_refl phi w : appends phi w w.
Proof. by apply appends_same_trace. Qed.

Lemma appends_trans phi w1 w2 w3 :
  appends phi w1 w2 -> appends phi w2 w3 -> appends phi w1 w3.
Proof.
  intros (e1 & H1 & F1) (e2 & H2 & F2). exists (e1 ++ e2).
  split; [by rewrite H2, H1, app_assoc|by apply Forall_app].
Qed.

Lemma appends_events_since phi w w' :
  appends phi w w' -> Forall phi (events_since w w').
Proof.
  intros (evs & H & F). unfold events_since.
  by rewrite H, drop_app_length.
Qed.

Lemma extractor_appends E place_name tags_dict output_folder :
  always (appends (extractor_event place_name tags_dict output_folder))
    (extract_amenities_for_place E place_name tags_dict output_folder).
Proof.
  apply (always_extract_amenities_for_place _
           (extractor_event place_name tags_dict output_folder)).
  - apply appends_refl.
  - apply appends_trans.
  - intros e He w. exists [e]. split; [done|by constructor].
  - intros p w. unfold on_fs. destruct (fs_makedirs _ _).
    by apply appends_same_trace.
  - intros p c w. unfold on_fs. destruct (fs_write _ _ _).
    by apply appends_same_trace.
  - done.
  - done.
Qed.

Ltac solve_appends :=
  first
    [ apply appends_refl
    | apply appends_trans
    | (intros ? ? ?; eexists [_]; split; [done|by constructor])
    | (intros; intros ?; unfold on_fs;
       repeat match goal with |- context [fs_makedirs ?p ?f] => destruct (fs_makedirs p f) end;
       repeat match goal with |- context [fs_write ?p ?c ?f] => destruct (fs_write p c f) end;
       by apply appends_same_trace)
    | done ].

Lemma process_appends (phi : event -> Prop) E g query_place tags_dict folder :
  (forall m, (forall prov_clean, m <> MsgExtracting prov_clean) -> phi (EPrint m)) ->
  (forall name, name ∈ geojson_names (clean_name query_place) tags_dict ->
                name_allowed phi folder name) ->
  always (appends phi) (process_collection E g query_place tags_dict folder).
Proof.
  intros Hprint Hnames.
  apply (always_process_collection _ phi); solve_appends.
Qed.

Lemma keeps_dirs_on_fs op :
  (forall f k, isdir f k = true -> isdir (op f).2 k = true) ->
  always keeps_dirs (on_fs op).
Proof.
  intros Hop w k Hk. unfold on_fs.
  specialize (Hop (fs w) k Hk). by destruct (op (fs w)).
Qed.

Lemma process_keeps_dirs E g query_place tags_dict folder :
  always keeps_dirs (process_collection E g query_place tags_dict folder).
Proof.
  apply (always_process_collection _ (fun _ => True)); try done.
  - by intros w k.
  - intros w1 w2 w3 H1 H2 k Hk. by apply H2, H1.
  - by intros e _ w k.
  - intros p. apply keeps_dirs_on_fs. intros f k. apply fs_makedirs_keeps_dirs.
  - intros p c. apply keeps_dirs_on_fs. intros f k. apply fs_write_keeps_dirs.
Qed.

(** ** The run of the Region Extractor up to its last early return *)

Lemma extract_run E place_name tags_dict output_folder w :
  let p := replace (lit ",") [] output_folder in
  let q := query_place_of place_name in
  let f1 := (fs_makedirs p (fs w)).2 in
  let after evs := {| fs := f1; trace := trace w ++ EMakedirs p :: evs |} in
  let asked := [EPrint (MsgQuerying q); EQuery q tags_dict] in
  extract_amenities_for_place E place_name tags_dict output_folder w =
  match (fs_makedirs p (fs w)).1 with
  | Raised e => (Raised e, after [])
  | Returned _ =>
      match features_from_place E q tags_dict with
      | Raised e => (Returned None, after (asked ++ [EPrint (MsgQueryError q e)]))
      | Returned None => (Returned None, after (asked ++ [EPrint (MsgNoFeatures q)]))
      | Returned (Some g) =>
          if empty g
          then (Returned None, after (asked ++ [EPrint (MsgNoFeatures q)]))
          else process_collection E g q tags_dict p (after asked)
      end
  end.
Proof.
  intros p q f1 after asked. subst after asked f1.
  unfold extract_amenities_for_place, os_makedirs, ox_features_from_place.
  fold p q. unfold bind at 1 2. unfold emit, on_fs. simpl.
  destruct (fs_makedirs p (fs w)) as [[[]|e] f1]; simpl; [|done].
  unfold bind, attempt, print, emit, lift, ret. simpl.
  rewrite <- !app_assoc. simpl.
  destruct (features_from_place E q tags_dict) as [[g|]|e]; simpl.
  - destruct (empty g); simpl; by rewrite <- ?app_assoc.
  - by rewrite <- app_assoc.
  - by rewrite <- app_assoc.
Qed.

Lemma events_since_app w evs f :
  events_since w {| fs := f; trace := trace w ++ evs |} = evs.
Proof. unfold events_since. simpl. apply drop_app_length. Qed.

(** C2: when the query was made and it raised, returned [None] or returned
    an empty collection, the Region Extractor returns [None], makes no call
    that writes a file, and leaves every regular file as it was. *)
Theorem no_features_no_result_no_files
    (E : env) (place_name : str) (tags_dict : tags) (output_folder : str)
    (w : world) :
  let q := query_place_of place_name in
  let run := extract_amenities_for_place E place_name tags_dict output_folder w in
  EQuery q tags_dict ∈ events_since w run.2 ->
  no_features (features_from_place E q tags_dict) = true ->
  run.1 = Returned None /\
  Forall (fun e => is_write e = false) (events_since w run.2) /\
  forall k c, fs run.2 !! k = Some (File c) <-> fs w !! k = Some (File c).
Proof.
  intros q run Hasked Hnone. subst run. revert Hasked.
  rewrite extract_run. fold q.
  destruct (fs_makedirs _ (fs w)).1 as [[]|e] eqn:Hmk.
  - intros _. unfold no_features in Hnone.
    assert (forall m,
      let w' := {| fs := (fs_makedirs (replace (lit ",") [] output_folder) (fs w)).2;
                   trace := trace w ++
                     EMakedirs (replace (lit ",") [] output_folder)
                     :: [EPrint (MsgQuerying q); EQuery q tags_dict] ++ [EPrint m] |} in
      Forall (fun e => is_write e = false) (events_since w w') /\
      forall k c, fs w' !! k = Some (File c) <-> fs w !! k = Some (File c)) as Hshort.
    { intros m w'. subst w'. rewrite events_since_app. split.
      - by repeat constructor.
      - intros k c. apply fs_makedirs_keeps_files. }
    destruct (features_from_place E q tags_dict) as [[g|]|e].
    + rewrite Hnone. split; [done|apply Hshort].
    + split; [done|apply Hshort].
    + split; [done|apply Hshort].
  - cbn [fst snd]. rewrite events_since_app. intros H.
    apply list_elem_of_singleton in H. discriminate.
Qed.

Lemma no_features_no_result_no_files_witness :
  let run := extract_amenities_for_place Sample.failing (lit "Nowhere")
               [(lit "amenity", SelTrue)] (lit "out") Sample.fresh in
  run.1 = Returned None /\
  Forall (fun e => is_write e = false) (events_since Sample.fresh run.2) /\
  forall k c, fs run.2 !! k = Some (File c) <-> fs Sample.fresh !! k = Some (File c).
Proof.
  apply (no_features_no_result_no_files Sample.failing (lit "Nowhere")
           [(lit "amenity", SelTrue)] (lit "out") Sample.fresh).
  - vm_compute. do 2 right. left.
  - reflexivity.
Defined.

(** C9: the first call of the Region Extractor creates the output directory.
    When that fails nothing else is attempted; when it succeeds the query
    follows, and whatever the run then does or returns, the directory is on
    disk when it ends, and creating it again would change nothing. *)
Theorem output_folder_created_before_query
    (E : env) (place_name : str) (tags_dict : tags) (output_folder : str)
    (w : world) :
  let p := replace (lit ",") [] output_folder in
  let q := query_place_of place_name in
  let run := extract_amenities_for_place E place_name tags_dict output_folder w in
  match (fs_makedirs p (fs w)).1 with
  | Raised e => run.1 = Raised e /\ events_since w run.2 = [EMakedirs p]
  | Returned _ =>
      (exists rest,
         events_since w run.2
         = EMakedirs p :: EPrint (MsgQuerying q) :: EQuery q tags_dict :: rest) /\
      isdir (fs run.2) (resolve p) = true /\
      fs_makedirs p (fs run.2) = (Returned tt, fs run.2)
  end.
Proof.
  intros p q run. subst run. rewrite extract_run. fold p q.
  destruct (fs_makedirs p (fs w)) as [[[]|e] f1] eqn:Hmk; simpl.
  - pose proof (fs_makedirs_isdir _ _ _ Hmk) as Hdir.
    pose proof (fs_makedirs_again p (fs w) f1 f1 Hmk ltac:(done)) as Hagain.
    destruct (features_from_place E q tags_dict) as [[g|]|e];
      [destruct (empty g) eqn:Hempty|..]; cbn [fst snd];
      try (rewrite events_since_app; split; [by eexists|done]).
    set (w3 := {| fs := f1; trace := _ |}).
    pose proof (process_appends (fun _ => True) E g q tags_dict p) as Happ.
    destruct (Happ ltac:(done) ltac:(done) w3) as (evs & Htr & _).
    pose proof (process_keeps_dirs E g q tags_dict p w3) as Hkeep.
    split; [|split].
    + exists evs. unfold events_since. rewrite Htr. simpl.
      rewrite <- app_assoc. by rewrite drop_app_length.
    + by apply Hkeep.
    + by apply (fs_makedirs_again p (fs w) f1).
  - by rewrite events_since_app.
Qed.

(** ** The characters of the paths *)

Lemma elem_of_replace_from old new s c : forall skip,
  c ∈ replace_from old new skip s -> c ∈ s \/ c ∈ new.
Proof.
  induction s as [|a s IH]; intros skip; simpl.
  - by intros ?%elem_of_nil.
  - destruct skip as [|k].
    + destruct (startswith old (a :: s)).
      * rewrite elem_of_app. intros [H|H%IH]; [by right|].
        destruct H; [left; by right|by right].
      * rewrite !elem_of_cons. intros [->|H%IH]; [by left; left|].
        destruct H; [left; by right|by right].
    + intros H%IH. destruct H; [left; by right|by right].
Qed.

Lemma elem_of_replace old new s c :
  old <> [] -> c ∈ replace old new s -> c ∈ s \/ c ∈ new.
Proof.
  destruct old as [|o old]; [done|]. intros _. apply elem_of_replace_from.
Qed.

Lemma comma_not_in_stripped s : comma ∉ replace (lit ",") [] s.
Proof.
  change (lit ",") with [comma].
  rewrite replace_char_nil, list_elem_of_In, filter_In.
  intros [_ H]. by rewrite N.eqb_refl in H.
Qed.

Lemma replace_comma_id s : comma ∉ s -> replace (lit ",") [] s = s.
Proof.
  intros Hs. change (lit ",") with [comma]. rewrite replace_char_nil.
  apply forallb_filter_id, forallb_forall. intros x Hx.
  apply negb_true_iff, N.eqb_neq. intros ->. by apply list_elem_of_In in Hx.
Qed.

Lemma elem_of_os_path_join c a b :
  c ∈ os_path_join a b -> c ∈ a \/ c ∈ b \/ c = slash.
Proof.
  unfold os_path_join. destruct (startswith _ b); [by auto|].
  destruct (_ || _); rewrite !elem_of_app; [tauto|].
  change (lit "/") with [slash]. rewrite list_elem_of_singleton. tauto.
Qed.

Lemma rstrip_sep_prefix s : rstrip_sep s `prefix_of` s.
Proof.
  induction s as [|c s IH]; simpl; [done|].
  destruct (rstrip_sep s) as [|d t].
  - destruct (N.eqb c slash); [apply prefix_nil|]. apply prefix_cons, prefix_nil.
  - by apply prefix_cons.
Qed.

Lemma elem_of_os_path_dirname c p : c ∈ os_path_dirname p -> c ∈ p.
Proof.
  unfold os_path_dirname. intros H.
  assert (c ∈ take (rfind_sep_end p) p) as H'.
  { destruct (_ && _); [|done].
    eapply elem_of_prefix; [done|apply rstrip_sep_prefix]. }
  eapply elem_of_prefix; [done|apply prefix_take].
Qed.

Lemma elem_of_str_or c a b : c ∈ str_or a b -> c ∈ a \/ c ∈ b.
Proof. destruct a; simpl; auto. Qed.

Lemma name_char_lit (s : string) :
  bool_decide (Forall name_char (lit s)) = true ->
  forall c, c ∈ lit s -> name_char c.
Proof. intros H%bool_decide_eq_true. by apply Forall_forall. Qed.

Lemma name_char_clean_name s c : c ∈ clean_name s -> name_char c.
Proof. intros (? & ? & _)%clean_name_chars. by split. Qed.

Lemma geojson_names_chars x tags_dict name c :
  name ∈ geojson_names (clean_name x) tags_dict -> c ∈ name -> name_char c.
Proof.
  unfold geojson_names. rewrite elem_of_cons, list_elem_of_fmap.
  intros [->|([key values] & -> & _)]; rewrite !elem_of_app; simpl.
  - intros [H|H]; [by eapply name_char_clean_name|].
    by apply (name_char_lit "_all_amenities.geojson").
  - intros [H|[H|[H|H]]]; try by eapply name_char_clean_name.
    + by apply (name_char_lit "_").
    + by apply (name_char_lit ".geojson").
Qed.

Lemma csv_name_chars name c :
  (forall c, c ∈ name -> name_char c) -> c ∈ csv_name name -> name_char c.
Proof.
  intros Hname [H|H]%elem_of_replace; [by apply Hname| |done].
  by apply (name_char_lit ".csv").
Qed.

(** ** Where the Region Extractor writes *)

Lemma extract_first_call E place_name tags_dict output_folder w :
  exists rest,
    events_since w
      (extract_amenities_for_place E place_name tags_dict output_folder w).2
    = EMakedirs (replace (lit ",") [] output_folder) :: rest.
Proof.
  rewrite extract_run.
  set (p := replace (lit ",") [] output_folder).
  set (q := query_place_of place_name).
  destruct (fs_makedirs p (fs w)).1 as [[]|e];
    [|cbn [fst snd]; rewrite events_since_app; by eexists].
  destruct (features_from_place E q tags_dict) as [[g|]|e];
    [destruct (empty g)|..]; cbn [fst snd];
    try (rewrite events_since_app; by eexists).
  set (w3 := {| fs := _; trace := _ |}).
  pose proof (process_appends (fun _ => True) E g q tags_dict p) as Happ.
  destruct (Happ ltac:(done) ltac:(done) w3) as (evs & Htr & _).
  eexists. unfold events_since. rewrite Htr. simpl.
  rewrite <- app_assoc. by rewrite drop_app_length.
Qed.

Lemma extract_events E place_name tags_dict output_folder w :
  Forall (extractor_event place_name tags_dict output_folder)
    (events_since w
       (extract_amenities_for_place E place_name tags_dict output_folder w).2).
Proof. apply appends_events_since, extractor_appends. Qed.

(** C10: the directory the Region Extractor creates first is the output
    location with every comma taken out and every other character kept, in
    order; every directory it creates has a comma-free path, and every file
    it writes is [os.path.join] of that comma-stripped location and a file
    name without comma or separator.  So when the output location has a
    comma, no call names it or a path under it. *)
Theorem output_under_comma_stripped_folder
    (E : env) (place_name : str) (tags_dict : tags) (output_folder : str)
    (w : world) :
  let p := List.filter (fun c => negb (N.eqb c comma)) output_folder in
  let evs :=
    events_since w
      (extract_amenities_for_place E place_name tags_dict output_folder w).2 in
  head evs = Some (EMakedirs p) /\
  Forall (fun e =>
    match e with
    | EMakedirs d => comma ∉ d
    | EToFile f _ | EToCsv f _ =>
        (exists name, f = os_path_join p name /\ (comma ∉ name) /\ (slash ∉ name)) /\
        (comma ∉ f)
    | _ => True
    end) evs /\
  (p = output_folder <-> comma ∉ output_folder).
Proof.
  intros p evs. subst evs.
  assert (p = replace (lit ",") [] output_folder) as Hp'
    by (symmetry; apply (replace_char_nil comma)).
  clearbody p. subst p. set (p := replace (lit ",") [] output_folder).
  pose proof (comma_not_in_stripped output_folder) as Hp. fold p in Hp.
  split.
  { destruct (extract_first_call E place_name tags_dict output_folder w)
      as [rest ->]. done. }
  split.
  2: { split; [intros Heq; by rewrite <- Heq|apply replace_comma_id]. }
  eapply Forall_impl; [apply extract_events|].
  assert (forall name,
            name ∈ geojson_names (clean_name (query_place_of place_name)) tags_dict ->
            (comma ∉ os_path_join p name) /\ (comma ∉ os_path_join p (csv_name name)))
    as Hjoin.
  { intros name Hname.
    assert (forall c, c ∈ name -> name_char c) as Hchars
      by (intros c; by eapply geojson_names_chars).
    split; intros [H|[H|H]]%elem_of_os_path_join; try done.
    - by apply Hchars in H as [? ?].
    - by eapply csv_name_chars in H as [? ?]. }
  intros [d|?|f g|f g|?]; unfold extractor_event; fold p; [| done | | | done].
  - intros [-> | (name & Hname & [-> | ->])]; [done|..];
      destruct (Hjoin name Hname) as [H1 H2];
      intros [H%elem_of_os_path_dirname|H]%elem_of_str_or; done.
  - intros (name & Hname & ->). split; [|by apply Hjoin].
    exists name. split; [done|].
    split; intros H; by eapply geojson_names_chars in H as [? ?].
  - intros (name & Hname & ->). split; [|by apply Hjoin].
    exists (csv_name name). split; [done|].
    assert (forall c, c ∈ name -> name_char c) as Hchars
      by (intros c; by eapply geojson_names_chars).
    split; intros H; by eapply csv_name_chars in H as [? ?].
Qed.

(** C7, at a region name with two spaces in a row: the Batch Driver's
    directory is [New__York], the files in it begin with [New_York]. *)
Lemma base_name_differs_from_folder_name :
  let prov := lit "New  York" in
  let run := extract_for_provinces Sample.cafes [prov] [(lit "amenity", SelTrue)]
               (lit "out") Sample.fresh in
  clean_name prov = lit "New__York" /\
  clean_name (query_place_of prov) = lit "New_York" /\
  omap path_of (trace run.2) =
    [lit "out/New__York";
     lit "out/New__York"; lit "out/New__York/New_York_all_amenities.geojson";
     lit "out/New__York"; lit "out/New__York/New_York_all_amenities.csv";
     lit "out/New__York"; lit "out/New__York/New_York_amenity.geojson";
     lit "out/New__York"; lit "out/New__York/New_York_amenity.csv"].
Proof. vm_compute. by repeat split. Qed.

(** C8, at the collection of three cafes: after the pipeline two records
    remain, both with an amenity, and the subset of [amenity: True] is the
    whole collection. *)
Lemma subset_can_be_whole_collection :
  exists g,
    (extract_amenities_for_place Sample.cafes (lit "Testville")
       [(lit "amenity", SelTrue)] (lit "out") Sample.fresh).1
    = Returned (Some g) /\
    len g = 2 /\
    subset_for (lit "amenity") SelTrue g = g.
Proof. eexists. split; [by vm_compute|]. by vm_compute. Qed.

(** ** Batch Driver *)

Lemma announced_app evs1 evs2 :
  announced (evs1 ++ evs2) = announced evs1 ++ announced evs2.
Proof. apply omap_app. Qed.

Lemma announced_extractor place_name tags_dict output_folder evs :
  Forall (extractor_event place_name tags_dict output_folder) evs ->
  announced evs = [].
Proof.
  induction 1 as [|e evs He _ IH]; [done|].
  change (e :: evs) with ([e] ++ evs). rewrite announced_app, IH, app_nil_r.
  destruct e as [| | | |m]; try done. destruct m; try done.
  by destruct (He prov_clean).
Qed.

Lemma extract_for_provinces_cons E prov provs tags_dict output_root_folder w :
  extract_for_provinces E (prov :: provs) tags_dict output_root_folder w =
  let w0 := {| fs := fs w;
               trace := trace w ++ [EPrint (MsgExtracting (clean_name prov))] |} in
  match extract_amenities_for_place E prov tags_dict
          (os_path_join output_root_folder (clean_name prov)) w0 with
  | (Returned _, w1) =>
      extract_for_provinces E provs tags_dict output_root_folder w1
  | (Raised e, w1) => (Raised e, w1)
  end.
Proof.
  unfold extract_for_provinces. simpl. unfold bind, print, emit, ret. simpl.
  by destruct (extract_amenities_for_place _ _ _ _ _) as [[x|e] w1].
Qed.

Lemma batch_run E tags_dict output_root_folder provinces_list : forall w,
  let run :=
    extract_for_provinces E provinces_list tags_dict output_root_folder w in
  exists evs done rest,
    trace run.2 = trace w ++ evs /\
    provinces_list = done ++ rest /\
    announced evs = clean_name <$> done /\
    match run.1 with
    | Returned _ => rest = []
    | Raised e =>
        exists prov w0,
          last done = Some prov /\
          extract_amenities_for_place E prov tags_dict
            (os_path_join output_root_folder (clean_name prov)) w0
          = (Raised e, run.2)
    end.
Proof.
  induction provinces_list as [|prov provs IH]; intros w run; subst run.
  { exists [], [], []. simpl. by rewrite app_nil_r. }
  rewrite extract_for_provinces_cons. cbn zeta.
  set (w0 := {| fs := fs w; trace := trace w ++ [_] |}).
  set (folder := os_path_join output_root_folder (clean_name prov)).
  pose proof (extractor_appends E prov tags_dict folder w0) as (evs1 & Htr1 & Hev1).
  apply announced_extractor in Hev1.
  destruct (extract_amenities_for_place E prov tags_dict folder w0)
    as [[x|e] w1] eqn:Hrun; cbn [fst snd] in Htr1.
  - destruct (IH w1) as (evs2 & done & rest & Htr2 & Hsplit & Hann & Hres).
    exists ([EPrint (MsgExtracting (clean_name prov))] ++ evs1 ++ evs2),
      (prov :: done), rest.
    split. { rewrite Htr2, Htr1. subst w0. simpl. by rewrite <- !app_assoc. }
    split; [by rewrite Hsplit|]. split.
    { rewrite !announced_app, Hev1, Hann. done. }
    destruct (extract_for_provinces E provs _ _ w1).1 as [[]|e]; [done|].
    destruct Hres as (prov' & wa & Hlast & Hraise).
    exists prov', wa. split; [|done].
    by destruct done.
  - exists ([EPrint (MsgExtracting (clean_name prov))] ++ evs1), [prov], provs.
    cbn [fst snd].
    split. { rewrite Htr1. subst w0. simpl. by rewrite <- !app_assoc. }
    split; [done|]. split.
    { rewrite announced_app, Hev1. done. }
    by exists prov, w0.
Qed.

(** C1, at two regions where a regular file stands in the place of the first
    region's directory: the invocation for [A] raises, the batch ends with
    that exception, and nothing is done for [B]. *)
Lemma batch_stops_when_an_invocation_raises :
  let tags_dict := [(lit "amenity", SelTrue)] in
  let run := extract_for_provinces Sample.cafes [lit "A"; lit "B"] tags_dict
               (lit "out") Sample.blocked in
  run.1 = Raised FileExistsError /\
  trace run.2 = [EPrint (MsgExtracting (lit "A")); EMakedirs (lit "out/A")] /\
  (extract_for_provinces Sample.cafes [lit "B"] tags_dict (lit "out")
     Sample.blocked).1 = Returned tt.
Proof. vm_compute. by repeat split. Qed.

(** * Further properties of the code *)

(** ** More on the Name Normalizer *)

Lemma lstrip_nil_iff s : lstrip s = [] <-> Forall (fun c => isspace c = true) s.
Proof.
  induction s as [|c s IH]; simpl; [by split; [constructor|]|].
  destruct (isspace c) eqn:Hc.
  - rewrite IH, Forall_cons. tauto.
  - split; [done|]. intros [H _]%Forall_cons. congruence.
Qed.

Lemma rstrip_nil_iff s : rstrip s = [] <-> Forall (fun c => isspace c = true) s.
Proof.
  induction s as [|c s IH]; simpl; [by split; [constructor|]|].
  rewrite Forall_cons, <- IH.
  destruct (rstrip s); [|split; [done|by intros [_ ?]]].
  destruct (isspace c); split; try done. by intros [? _].
Qed.

Lemma strip_nil_iff s : strip s = [] <-> Forall (fun c => isspace c = true) s.
Proof.
  unfold strip. rewrite rstrip_nil_iff, <- (lstrip_nil_iff s).
  pose proof (lstrip_head_ok s) as Hhead.
  destruct (lstrip s) as [|c t]; [split; [done|constructor]|]. simpl in Hhead.
  split; [|done]. intros [H _]%Forall_cons. congruence.
Qed.

Lemma strip_length s : length (strip s) <= length s.
Proof.
  unfold strip.
  etransitivity; [apply prefix_length, rstrip_prefix|].
  apply suffix_length, lstrip_suffix.
Qed.

(** X1: [clean_name] leaves a name unchanged exactly when the name is
    already safe: no comma, no separator, no space, and no whitespace at
    either end. *)
Theorem clean_name_fixed_iff (t : str) :
  clean_name t = t <->
  (forall c, c ∈ t -> c <> comma /\ c <> slash /\ c <> space) /\
  lstrip t = t /\ rstrip t = t.
Proof.
  split.
  - intros H. rewrite <- H. split; [apply clean_name_chars|].
    rewrite clean_name_unfold. split.
    + apply lstrip_unspace, strip_fixed.
    + apply rstrip_unspace, strip_fixed.
  - intros (Hc & Hl & Hr). by apply clean_name_fixed.
Qed.

(** X2: [clean_name] never makes a name longer, and it returns the empty
    name exactly for the strings made of commas and whitespace only. *)
Theorem clean_name_length_and_empty (s : str) :
  length (clean_name s) <= length s /\
  (clean_name s = [] <->
   Forall (fun c => c = comma \/ isspace c = true) s).
Proof.
  rewrite clean_name_unfold. split.
  - rewrite length_map. etransitivity; [apply strip_length|].
    rewrite length_map. apply List.filter_length_le.
  - split.
    + intros H. apply map_eq_nil, strip_nil_iff in H.
      apply Forall_forall. intros c Hc.
      destruct (N.eqb c comma) eqn:Hcomma; [left; by apply N.eqb_eq|right].
      rewrite Forall_forall in H.
      assert (isspace (if N.eqb c slash then underscore else c) = true) as Hsp.
      { apply H, list_elem_of_In.
        apply (in_map (fun x => if N.eqb x slash then underscore else x)), filter_In.
        split; [by apply list_elem_of_In|by rewrite Hcomma]. }
      destruct (N.eqb c slash); [discriminate|done].
    + intros H.
      assert (strip (List.map (fun x => if N.eqb x slash then underscore else x)
                (List.filter (fun x => negb (N.eqb x comma)) s)) = []) as ->; [|done].
      apply strip_nil_iff, Forall_forall. intros c Hc.
      apply list_elem_of_In, in_map_iff in Hc as (x & <- & Hx).
      apply filter_In in Hx as [Hx Hne].
      rewrite Forall_forall in H. apply list_elem_of_In, H in Hx as [->|Hx].
      * by rewrite N.eqb_refl in Hne.
      * destruct (N.eqb x slash) eqn:Hs; [|done].
        apply N.eqb_eq in Hs. subst. discriminate.
Qed.

(** ** Query normalization (line 22) *)

Lemma split_from_words s : forall w,
  Forall (fun c => isspace c = false) w -> Forall is_word (split_from w s).
Proof.
  induction s as [|c s IH]; intros w Hw; simpl.
  - destruct w; [constructor|]. constructor; [by split|constructor].
  - destruct (isspace c) eqn:Hc.
    + destruct w; [by apply IH|].
      constructor; [by split|]. by apply IH.
    + apply IH, Forall_app. split; [done|]. by constructor.
Qed.

Lemma split_from_lstrip s : split_from [] (lstrip s) = split_from [] s.
Proof.
  induction s as [|c s IH]; simpl; [done|].
  destruct (isspace c) eqn:Hc; [done|]. simpl. by rewrite Hc.
Qed.

Lemma split_from_whitespace s w :
  Forall (fun c => isspace c = true) s ->
  split_from w s = match w with [] => [] | _ => [w] end.
Proof.
  intros H. revert w.
  induction H as [|c s Hc _ IH]; intros w; simpl; [done|].
  rewrite Hc. destruct w; [apply IH|]. by rewrite IH.
Qed.

Lemma split_from_rstrip s : forall w, split_from w (rstrip s) = split_from w s.
Proof.
  induction s as [|c s IH]; intros w; simpl; [done|].
  destruct (rstrip s) as [|d t] eqn:Hr.
  - apply rstrip_nil_iff in Hr.
    destruct (isspace c) eqn:Hc; simpl.
    + rewrite (split_from_whitespace s []) by done. by destruct w.
    + rewrite Hc, (split_from_whitespace s (w ++ [c])) by done. simpl.
      by destruct w.
  - change (split_from w (c :: d :: t))
      with (if isspace c
            then match w with
                 | [] => split_from [] (d :: t)
                 | _ => w :: split_from [] (d :: t)
                 end
            else split_from (w ++ [c]) (d :: t)).
    by rewrite !IH.
Qed.

Lemma split_strip s : split (strip s) = split s.
Proof. unfold split, strip. by rewrite split_from_rstrip, split_from_lstrip. Qed.

Lemma split_from_app_word u : forall w rest,
  Forall (fun c => isspace c = false) u ->
  split_from w (u ++ rest) = split_from (w ++ u) rest.
Proof.
  induction u as [|c u IH]; intros w rest Hu; simpl.
  - by rewrite app_nil_r.
  - apply Forall_cons in Hu as [Hc Hu]. rewrite Hc, IH by done.
    by rewrite <- app_assoc.
Qed.

Lemma split_join ws :
  Forall is_word ws -> split (join (lit " ") ws) = ws.
Proof.
  unfold split. induction 1 as [|x ws [Hne Hx] Hws IH]; [done|].
  destruct ws as [|y ws].
  - simpl. rewrite <- (app_nil_r x) at 1.
    rewrite split_from_app_word by done. simpl. by destruct x.
  - change (join (lit " ") (x :: y :: ws))
      with (x ++ space :: join (lit " ") (y :: ws)).
    remember (join (lit " ") (y :: ws)) as j eqn:Hj.
    rewrite split_from_app_word by done. simpl.
    rewrite IH. by destruct x.
Qed.

Lemma rstrip_word u : Forall (fun c => isspace c = false) u -> rstrip u = u.
Proof.
  induction 1 as [|c u Hc _ IH]; simpl; [done|].
  rewrite IH. destruct u; [by rewrite Hc|done].
Qed.

Lemma rstrip_app_word s u : is_word u -> rstrip (s ++ u) = s ++ u.
Proof.
  intros [Hne Hu]. induction s as [|a s IH]; simpl; [by apply rstrip_word|].
  rewrite IH. destruct (s ++ u) eqn:Hsu; [|done].
  by apply app_eq_nil in Hsu as [_ ?].
Qed.

Lemma join_ends_with_word ws :
  ws <> [] -> Forall is_word ws ->
  exists s u, join (lit " ") ws = s ++ u /\ is_word u.
Proof.
  intros Hne Hws. induction Hws as [|x ws Hx Hws IH]; [done|].
  destruct ws as [|y ws].
  - by exists [], x.
  - destruct IH as (s & u & Hj & Hu); [done|].
    exists (x ++ space :: s), u. split; [|done].
    change (join (lit " ") (x :: y :: ws))
      with (x ++ space :: join (lit " ") (y :: ws)).
    by rewrite Hj, <- app_assoc.
Qed.

Lemma strip_join ws :
  Forall is_word ws -> strip (join (lit " ") ws) = join (lit " ") ws.
Proof.
  intros Hws. destruct ws as [|x ws]; [done|].
  unfold strip. rewrite head_ok_lstrip.
  - destruct (join_ends_with_word (x :: ws)) as (s & u & -> & Hu); [done..|].
    by apply rstrip_app_word.
  - apply Forall_cons in Hws as [[Hne Hx] _].
    destruct x as [|c x]; [done|]. apply Forall_cons in Hx as [Hc _].
    by destruct ws.
Qed.

Lemma split_words s : Forall is_word (split s).
Proof. apply split_from_words. constructor. Qed.

(** X3: the query name of a region is its words, in order, joined by single
    spaces; normalizing keeps the words and is idempotent. *)
Theorem query_place_normal_form (place_name : str) :
  query_place_of place_name = join (lit " ") (split place_name) /\
  Forall is_word (split place_name) /\
  split (query_place_of place_name) = split place_name /\
  query_place_of (query_place_of place_name) = query_place_of place_name.
Proof.
  assert (query_place_of place_name = join (lit " ") (split place_name)) as Hq
    by (unfold query_place_of; by rewrite split_strip).
  pose proof (split_words place_name) as Hw.
  assert (split (query_place_of place_name) = split place_name) as Hs
    by (rewrite Hq; by apply split_join).
  repeat split; try done.
  unfold query_place_of at 1. by rewrite split_strip, Hs.
Qed.

(** X4: two region names with the same words, whatever whitespace separates
    or surrounds them, give the same run of the Region Extractor for the
    same output folder: same query, same file names, same result. *)
Theorem same_words_same_run
    (E : env) (a b : str) (tags_dict : tags) (output_folder : str) (w : world) :
  split a = split b ->
  extract_amenities_for_place E a tags_dict output_folder w
  = extract_amenities_for_place E b tags_dict output_folder w.
Proof.
  intros H. unfold extract_amenities_for_place.
  assert (query_place_of a = query_place_of b) as ->; [|done].
  unfold query_place_of. by rewrite !split_strip, H.
Qed.

Lemma same_words_same_run_witness :
  extract_amenities_for_place Sample.cafes (lit "  Calgary,   Alberta ")
    [(lit "amenity", SelTrue)] (lit "out") Sample.fresh
  = extract_amenities_for_place Sample.cafes (lit "Calgary, Alberta")
      [(lit "amenity", SelTrue)] (lit "out") Sample.fresh.
Proof.
  apply (same_words_same_run Sample.cafes (lit "  Calgary,   Alberta ")
           (lit "Calgary, Alberta")).
  reflexivity.
Defined.

(** ** The stages, run by run *)

Lemma logged_nil w : logged w [] = w.
Proof. unfold logged. simpl. rewrite app_nil_r. by destruct w. Qed.

Lemma logged_logged w ms1 ms2 : logged (logged w ms1) ms2 = logged w (ms1 ++ ms2).
Proof. unfold logged. simpl. by rewrite fmap_app, app_assoc. Qed.

Lemma print_run m w : print m w = (Returned tt, logged w [m]).
Proof. done. Qed.

Lemma events_since_logged w ms : events_since w (logged w ms) = EPrint <$> ms.
Proof. apply events_since_app. Qed.

Lemma filter_points_run g w :
  exists ms, filter_points g w = (Returned (kept_points g), logged w ms).
Proof.
  unfold filter_points, kept_points, has_point.
  destruct (has_column (lit "geometry") g); simpl;
    [|exists []; by rewrite logged_nil].
  unfold bind. rewrite print_run, point_in_index.
  destruct (existsb point_record (rows g)); simpl.
  - eexists [_; _]. unfold ret, logged. simpl. rewrite <- app_assoc. simpl.
    do 2 f_equal. unfold boolean_index. f_equal.
    unfold geometry_series. rewrite <- list_fmap_compose.
    rewrite <- boolean_index_rows_filter.
    f_equal. apply list_fmap_ext. intros _ r _. apply is_point_geom_of.
  - eexists [_; _]. unfold ret, logged. simpl. by rewrite <- app_assoc.
Qed.

Lemma dedup_osmid_run g w :
  exists ms, dedup_osmid g w = (Returned (deduped g), logged w ms).
Proof.
  unfold dedup_osmid, deduped.
  destruct (has_column (lit "osmid") g); [|exists []; by rewrite logged_nil].
  unfold bind. rewrite print_run. by eexists.
Qed.

Lemma extract_coordinates_pure g w :
  extract_coordinates g w = ((extract_coordinates g w).1, w).
Proof.
  unfold extract_coordinates.
  destruct (has_column _ g); [|done].
  destruct (geometry_y _); [|done]. by destruct (geometry_x _).
Qed.

Lemma extract_coordinates_any_world g w w' :
  (extract_coordinates g w).1 = (extract_coordinates g w').1.
Proof.
  unfold extract_coordinates.
  destruct (has_column _ g); [|done].
  destruct (geometry_y _); [|done]. by destruct (geometry_x _).
Qed.

(** *** The exports never raise *)

Lemma try_or_print_returns body msg w : (try_or_print body msg w).1 = Returned tt.
Proof.
  unfold try_or_print, bind, attempt. by destruct (body w) as [[[]|e] w'].
Qed.

Lemma bind_returns {A} (m : M A) (k : A -> M unit) w :
  (forall a w', (k a w').1 = Returned tt) ->
  (exists a, (m w).1 = Returned a) ->
  (bind m k w).1 = Returned tt.
Proof.
  intros Hk [a Ha]. unfold bind. destruct (m w) as [[a'|e] w1]; [apply Hk|done].
Qed.

Lemma export_combined_returns E g place_short folder w :
  (export_combined E g place_short folder w).1 = Returned tt.
Proof.
  unfold export_combined. apply bind_returns.
  - intros _ w'. apply try_or_print_returns.
  - exists tt. apply try_or_print_returns.
Qed.

Lemma export_tag_returns E g query_place place_short folder item w :
  (export_tag E g query_place place_short folder item w).1 = Returned tt.
Proof.
  destruct item as [key values]. unfold export_tag.
  destruct (negb _); [done|]. destruct (empty _); [done|].
  apply bind_returns.
  - intros _ w'. apply try_or_print_returns.
  - exists tt. apply try_or_print_returns.
Qed.

Lemma for_each_returns {A} (l : list A) (body : A -> M unit) :
  (forall x w, (body x w).1 = Returned tt) ->
  forall w, (for_each l body w).1 = Returned tt.
Proof.
  intros Hbody. induction l as [|x l IH]; intros w; simpl; [done|].
  apply bind_returns; [by intros|]. exists tt. apply Hbody.
Qed.

Lemma all_exports_returns E g query_place tags_dict folder w :
  (all_exports E g query_place tags_dict folder w).1 = Returned tt.
Proof.
  unfold all_exports. apply bind_returns.
  - intros _ w'. apply for_each_returns. intros. apply export_tag_returns.
  - exists tt. apply export_combined_returns.
Qed.

(** *** The run of [process_collection] *)

Lemma bind_assoc {A B C} (m : M A) (k : A -> M B) (h : B -> M C) w :
  bind (bind m k) h w = bind m (fun a => bind (k a) h) w.
Proof. unfold bind. by destruct (m w) as [[a|e] w1]. Qed.

Lemma bind_ret_after {A} (m : M unit) (a : A) w :
  (m w).1 = Returned tt -> bind m (fun _ => ret a) w = (Returned a, (m w).2).
Proof. unfold bind. by destruct (m w) as [[[]|e] w1]. Qed.

Lemma process_run E g query_place tags_dict folder w :
  let g1 := kept_points (reprojected E g) in
  exists ms1 ms2,
    process_collection E g query_place tags_dict folder w =
    match (extract_coordinates g1 w).1 with
    | Raised e => (Raised e, logged w ms1)
    | Returned g2 =>
        (Returned (Some (deduped g2)),
         (all_exports E (deduped g2) query_place tags_dict folder
            (logged w ms2)).2)
    end.
Proof.
  intros g1.
  destruct (filter_points_run (reprojected E g) w) as [ms1 Hfp]. fold g1 in Hfp.
  exists ms1.
  rewrite (extract_coordinates_any_world g1 w (logged w ms1)).
  unfold process_collection.
  unfold bind at 1. unfold attempt, lift. simpl. fold (reprojected E g).
  unfold bind at 1. rewrite Hfp.
  unfold bind at 1. rewrite extract_coordinates_pure.
  destruct (extract_coordinates g1 (logged w ms1)).1 as [g2|e];
    [|by exists []].
  destruct (dedup_osmid_run g2 (logged w ms1)) as [ms2 Hdd].
  exists (ms1 ++ ms2). unfold bind at 1. rewrite Hdd, logged_logged.
  rewrite <- (bind_assoc (export_combined _ _ _ _)).
  apply (bind_ret_after (all_exports E (deduped g2) query_place tags_dict folder)).
  apply all_exports_returns.
Qed.

(** ** Coordinate extraction (lines 54-58) *)

Lemma geom_of_insert (key : str) (v : cell) (r : row) :
  key <> lit "geometry" -> geom_of (<[key := v]> r) = geom_of r.
Proof.
  intros Hne. unfold geom_of, at_col. by rewrite lookup_insert_ne.
Qed.

Lemma coords_of_points (pick : float -> float -> float) (rs : list row) :
  Forall (fun r => point_record r = true) rs ->
  mapM (coord_of pick) (geom_of <$> rs)
  = Some ((fun r => match geom_of r with
                    | Some (Point x y) => VFloat (pick x y)
                    | _ => Null
                    end) <$> rs).
Proof.
  intros H. apply mapM_Some_2, Forall2_fmap_l, Forall2_fmap_r, Forall_Forall2_diag.
  eapply Forall_impl; [done|]. intros r Hr. unfold point_record in Hr.
  unfold compose. by destruct (geom_of r) as [[x y|k cs]|].
Qed.

Lemma zip_with_insert (key : str) (c : row -> cell) (rs : list row) :
  zip_with (fun r v => <[key := v]> r) rs (c <$> rs)
  = (fun r => <[key := c r]> r) <$> rs.
Proof. induction rs as [|r rs IH]; csimpl; [done|]. by rewrite IH. Qed.

Lemma drop_missing_geometry_rows g :
  rows (drop_missing_geometry g)
  = filter (fun r => is_Some (geom_of r)) (rows g).
Proof.
  unfold drop_missing_geometry, geometry_series. simpl.
  rewrite <- list_fmap_compose.
  rewrite (boolean_index_rows_filter
             ((fun o : option geometry => bool_decide (is_Some o)) ∘ geom_of)).
  apply list_filter_iff. intros r. apply bool_decide_eq_true.
Qed.

Lemma extract_coordinates_result g w :
  (extract_coordinates g w).1 =
  if has_column (lit "geometry") g then
    if existsb shape_record (rows g) then Raised ValueError
    else
      let kept := drop_missing_geometry g in
      Returned
        (set_column (lit "longitude")
           ((fun r => match geom_of r with
                      | Some (Point x y) => VFloat x
                      | _ => Null
                      end) <$> rows kept)
           (set_column (lit "latitude")
              ((fun r => match geom_of r with
                         | Some (Point x y) => VFloat y
                         | _ => Null
                         end) <$> rows kept)
              kept))
  else Returned g.
Proof.
  unfold extract_coordinates.
  destruct (has_column (lit "geometry") g); [|done].
  destruct (existsb shape_record (rows g)) eqn:Hshape.
  - apply existsb_exists in Hshape as (r & Hr & Hs).
    assert (geometry_y (drop_missing_geometry g) = None) as ->; [|done].
    apply mapM_None_2, Exists_exists. exists (geom_of r). split.
    + unfold geometry_series. apply list_elem_of_fmap. exists r. split; [done|].
      rewrite drop_missing_geometry_rows. apply list_elem_of_filter.
      split; [|by apply list_elem_of_In].
      unfold shape_record in Hs. by destruct (geom_of r).
    + unfold shape_record in Hs. by destruct (geom_of r) as [[]|].
  - set (kept := drop_missing_geometry g).
    assert (Forall (fun r => point_record r = true) (rows kept)) as Hpoints.
    { subst kept. rewrite drop_missing_geometry_rows.
      apply Forall_forall. intros r [Hsome Hin]%list_elem_of_filter.
      assert (shape_record r = false) as Hs.
      { destruct (shape_record r) eqn:Hs; [|done].
        assert (existsb shape_record (rows g) = true) as Hex; [|congruence].
        apply existsb_exists. exists r. split; [by apply list_elem_of_In|done]. }
      unfold shape_record in Hs. unfold point_record.
      destruct (geom_of r) as [[]|]; first [done|by destruct Hsome]. }
    set (xs := _ <$> rows kept). set (ys := _ <$> rows kept).
    assert (geometry_y kept = Some ys) as ->
      by (by apply (coords_of_points (fun _ y => y))).
    assert (geometry_x (set_column (lit "latitude") ys kept) = Some xs) as ->;
      [|done].
    unfold geometry_x, geometry_series, set_column. cbn [rows]. subst ys.
    rewrite zip_with_insert, <- list_fmap_compose.
    subst xs. rewrite <- (coords_of_points (fun x _ => x) (rows kept) Hpoints).
    f_equal. apply list_fmap_ext. intros _ r _. by apply geom_of_insert.
Qed.

Lemma has_column_set_column key k vs g :
  has_column key (set_column k vs g)
  = bool_decide (key = k) || has_column key g.
Proof.
  unfold set_column at 1. unfold has_column at 1. cbn [columns].
  destruct (has_column k g) eqn:Hk; apply eq_true_iff_eq;
    rewrite orb_true_iff, !bool_decide_eq_true.
  - unfold has_column. rewrite bool_decide_eq_true. split; [by right|].
    intros [->|?]; [|done]. by apply bool_decide_eq_true in Hk.
  - rewrite elem_of_app, list_elem_of_singleton. unfold has_column.
    rewrite bool_decide_eq_true. tauto.
Qed.

Lemma coordinates_rows (rs : list row) :
  Forall (fun r => point_record r = true) rs ->
  zip_with (fun r v => <[lit "longitude" := v]> r)
    (zip_with (fun r v => <[lit "latitude" := v]> r) rs
       ((fun r => match geom_of r with
                  | Some (Point x y) => VFloat y
                  | _ => Null
                  end) <$> rs))
    ((fun r => match geom_of r with
               | Some (Point x y) => VFloat x
               | _ => Null
               end) <$> rs)
  = with_coords <$> rs.
Proof.
  induction 1 as [|r rs Hr _ IH]; [done|]. csimpl. rewrite IH. f_equal.
  unfold with_coords. unfold point_record in Hr.
  by destruct (geom_of r) as [[x y|]|].
Qed.

(** What the stage returns when no geometry stands in its way. *)
Lemma extract_coordinates_returned g w g' :
  has_column (lit "geometry") g = true ->
  (extract_coordinates g w).1 = Returned g' ->
  existsb shape_record (rows g) = false /\
  rows g' = with_coords <$> filter (fun r => is_Some (geom_of r)) (rows g) /\
  Forall (fun r => point_record r = true)
    (filter (fun r => is_Some (geom_of r)) (rows g)) /\
  forall key,
    has_column key g' =
    bool_decide (key = lit "longitude") || bool_decide (key = lit "latitude")
    || has_column key g.
Proof.
  intros Hgeo. rewrite extract_coordinates_result, Hgeo.
  destruct (existsb shape_record (rows g)) eqn:Hshape; [done|].
  cbn zeta. intros [= <-]. split; [done|].
  assert (Forall (fun r => point_record r = true)
            (filter (fun r => is_Some (geom_of r)) (rows g))) as Hpoints.
  { apply Forall_forall. intros r [Hsome Hin]%list_elem_of_filter.
    assert (shape_record r = false) as Hs.
    { destruct (shape_record r) eqn:Hs; [|done].
      assert (existsb shape_record (rows g) = true) as Hex; [|congruence].
      apply existsb_exists. exists r. split; [by apply list_elem_of_In|done]. }
    unfold shape_record in Hs. unfold point_record.
    destruct (geom_of r) as [[]|]; first [done|by destruct Hsome]. }
  split; [|split; [done|]].
  - rewrite <- drop_missing_geometry_rows in *.
    change (boolean_index_rows (rows g)
              ((fun o : option geometry => bool_decide (is_Some o))
               <$> geometry_series g))
      with (rows (drop_missing_geometry g)).
    remember (drop_missing_geometry g) as kept eqn:Hkept.
    unfold set_column. cbn [rows]. by apply coordinates_rows.
  - intros key. rewrite !has_column_set_column. by rewrite orb_assoc.
Qed.

(** X5: coordinate extraction touches nothing outside the collection.  With
    a geometry column it raises [ValueError] exactly when a record has a
    geometry that is not a point; otherwise it keeps the records that have
    a geometry, in order, and stores y in [latitude] and x in [longitude],
    keeping every column.  Without a geometry column the collection is
    returned as it is. *)
Theorem extract_coordinates_stage (g : GeoDataFrame) (w : world) :
  exists r,
    extract_coordinates g w = (r, w) /\
    if has_column (lit "geometry") g then
      if existsb shape_record (rows g) then r = Raised ValueError
      else
        exists g',
          r = Returned g' /\
          rows g' = with_coords <$> filter (fun r => is_Some (geom_of r)) (rows g) /\
          has_column (lit "latitude") g' = true /\
          has_column (lit "longitude") g' = true /\
          Forall (fun key => has_column key g' = true) (columns g)
    else r = Returned g.
Proof.
  exists (extract_coordinates g w).1. split; [apply extract_coordinates_pure|].
  destruct (has_column (lit "geometry") g) eqn:Hgeo;
    [|by rewrite extract_coordinates_result, Hgeo].
  destruct (existsb shape_record (rows g)) eqn:Hshape;
    [by rewrite extract_coordinates_result, Hgeo, Hshape|].
  destruct (extract_coordinates g w).1 as [g'|e] eqn:Hres.
  - destruct (extract_coordinates_returned g w g' Hgeo Hres)
      as (_ & Hrows & _ & Hcols).
    exists g'. split; [done|]. split; [done|].
    rewrite !Hcols. split; [done|]. split; [done|].
    apply Forall_forall. intros key Hkey. rewrite Hcols.
    unfold has_column at 1. rewrite (bool_decide_eq_true_2 _ Hkey).
    by rewrite orb_true_r.
  - rewrite extract_coordinates_result, Hgeo, Hshape in Hres. done.
Qed.

(** ** The ways a run of the Region Extractor can end *)

Lemma started_logged w p evs ms :
  logged (started w p evs) ms = started w p (evs ++ (EPrint <$> ms)).
Proof. unfold logged, started. simpl. by rewrite <- app_assoc. Qed.

Lemma extract_outcome E place_name tags_dict output_folder w :
  let p := replace (lit ",") [] output_folder in
  let q := query_place_of place_name in
  let run := extract_amenities_for_place E place_name tags_dict output_folder w in
  (exists e, (fs_makedirs p (fs w)).1 = Raised e /\
             run = (Raised e, started w p [])) \/
  ((fs_makedirs p (fs w)).1 = Returned tt /\
   ((no_features (features_from_place E q tags_dict) = true /\
     exists m, run = (Returned None, started w p (asked q tags_dict ++ [EPrint m]))) \/
    (exists g, features_from_place E q tags_dict = Returned (Some g) /\
       empty g = false /\
       let g1 := kept_points (reprojected E g) in
       exists ms,
         let w0 := started w p (asked q tags_dict ++ (EPrint <$> ms)) in
         match (extract_coordinates g1 w).1 with
         | Raised e => e = ValueError /\ run = (Raised ValueError, w0)
         | Returned g2 =>
             run = (Returned (Some (deduped g2)),
                    (all_exports E (deduped g2) q tags_dict p w0).2)
         end))).
Proof.
  intros p q run. subst run. rewrite extract_run. fold p q.
  fold (started w p []).
  change [EPrint (MsgQuerying q); EQuery q tags_dict] with (asked q tags_dict).
  destruct (fs_makedirs p (fs w)).1 as [[]|e]; [right; split; [done|]|left; by eexists].
  destruct (features_from_place E q tags_dict) as [[g|]|e] eqn:Hq;
    [destruct (empty g) eqn:Hempty|..];
    try (left; split; [done|by eexists]).
  right. exists g. split; [done|]. split; [done|]. intros g1.
  fold (started w p (asked q tags_dict)).
  destruct (process_run E g q tags_dict p (started w p (asked q tags_dict)))
    as (ms1 & ms2 & Hrun). fold g1 in Hrun.
  rewrite (extract_coordinates_any_world g1 w (started w p (asked q tags_dict))).
  rewrite Hrun.
  destruct (extract_coordinates g1 (started w p (asked q tags_dict))).1
    as [g2|e] eqn:Hres.
  - exists ms2. by rewrite started_logged.
  - exists ms1. rewrite started_logged.
    assert (e = ValueError) as ->; [|done].
    rewrite extract_coordinates_result in Hres.
    destruct (has_column _ g1); [|done]. destruct (existsb _ _); [|done].
    by inversion Hres.
Qed.

Lemma keeps_files_started w p evs : keeps_files w (started w p evs).
Proof. intros k c. apply fs_makedirs_keeps_files. Qed.

Lemma events_since_started w p evs :
  events_since w (started w p evs) = EMakedirs p :: evs.
Proof. apply events_since_app. Qed.

(** X6: when a run of the Region Extractor raises, the exception is the one
    of the first [os.makedirs] or the [ValueError] of the coordinate
    extraction; nothing has been written by then: the run made no call that
    writes a file and left every regular file as it was. *)
Theorem raising_run_writes_nothing
    (E : env) (place_name : str) (tags_dict : tags) (output_folder : str)
    (w : world) :
  let p := replace (lit ",") [] output_folder in
  let run := extract_amenities_for_place E place_name tags_dict output_folder w in
  match run.1 with
  | Raised e =>
      ((fs_makedirs p (fs w)).1 = Raised e \/ e = ValueError) /\
      Forall (fun e => is_write e = false) (events_since w run.2) /\
      keeps_files w run.2
  | Returned _ => True
  end.
Proof.
  intros p run.
  destruct (extract_outcome E place_name tags_dict output_folder w)
    as [(e & Hmk & Hrun)|(Hmk & [(_ & m & Hrun)|(g & _ & _ & ms & Hrun)])];
    fold p run in Hmk, Hrun; cbn zeta in *.
  - rewrite Hrun. cbn [fst snd]. split; [by left|].
    rewrite events_since_started. split; [by repeat constructor|].
    apply keeps_files_started.
  - by rewrite Hrun.
  - destruct (extract_coordinates _ w).1 as [g2|e].
    + by rewrite Hrun.
    + destruct Hrun as [-> ->]. cbn [fst snd]. split; [by right|].
      rewrite events_since_started. split; [|apply keeps_files_started].
      constructor; [done|]. apply Forall_app. split; [by repeat constructor|].
      apply Forall_fmap, Forall_true. done.
Qed.

Lemma all_exports_appends (phi : event -> Prop) E g query_place tags_dict folder :
  (forall m, (forall prov_clean, m <> MsgExtracting prov_clean) -> phi (EPrint m)) ->
  (forall name, name ∈ geojson_names (clean_name query_place) tags_dict ->
                name_allowed phi folder name) ->
  always (appends phi) (all_exports E g query_place tags_dict folder).
Proof.
  intros Hprint Hnames. unfold all_exports.
  apply always_bind; [apply appends_trans| |intros _].
  - apply (always_export_combined _ phi); [solve_appends..|].
    apply Hnames. left.
  - apply always_for_each; [apply appends_refl|apply appends_trans|].
    intros item Hitem.
    apply (always_export_tag _ phi); [solve_appends..|].
    apply Hnames. right. apply list_elem_of_fmap. by exists item.
Qed.

Lemma filter_none {A} (P : A -> Prop) `{forall x, Decision (P x)} (l : list A) :
  Forall (fun x => ~ P x) l -> filter P l = [].
Proof.
  induction 1 as [|x l Hx _ IH]; [done|].
  by rewrite filter_cons, decide_False.
Qed.

Lemma queries_of_run
    (E : env) (place_name : str) (tags_dict : tags) (output_folder : str)
    (w : world) :
  let p := replace (lit ",") [] output_folder in
  let q := query_place_of place_name in
  let run := extract_amenities_for_place E place_name tags_dict output_folder w in
  filter (fun e => is_query e = true) (events_since w run.2) =
  match (fs_makedirs p (fs w)).1 with
  | Returned _ => [EQuery q tags_dict]
  | Raised _ => []
  end.
Proof.
  intros p q run.
  destruct (extract_outcome E place_name tags_dict output_folder w)
    as [(e & Hmk & Hrun)|(Hmk & [(_ & m & Hrun)|(g & _ & _ & ms & Hrun)])];
    fold p q run in Hmk, Hrun; cbn zeta in *; rewrite Hmk.
  - rewrite Hrun. cbn [snd]. by rewrite events_since_started.
  - rewrite Hrun. cbn [snd]. by rewrite events_since_started.
  - assert (filter (fun e => is_query e = true)
              (EMakedirs p :: asked q tags_dict ++ (EPrint <$> ms))
            = [EQuery q tags_dict]) as Hhead.
    { unfold asked.
      change (EMakedirs p :: ?l ++ ?r) with ((EMakedirs p :: l) ++ r).
      rewrite filter_app, (filter_none _ (EPrint <$> ms)); [done|].
      apply Forall_fmap, Forall_true. done. }
    destruct (extract_coordinates _ w).1 as [g2|e].
    + rewrite Hrun. cbn [snd].
      set (w0 := started w p _).
      destruct (all_exports_appends (fun e => is_query e = false) E (deduped g2)
                  q tags_dict p) with (w := w0) as (evs & Htr & Hevs);
        [done|by repeat split|].
      unfold events_since. rewrite Htr. subst w0. cbn [trace started].
      rewrite <- app_assoc, drop_app_length.
      change (EMakedirs p :: ?l ++ evs) with ((EMakedirs p :: l) ++ evs).
      rewrite filter_app, Hhead, (filter_none _ evs); [done|].
      eapply Forall_impl; [done|]. intros e He. simpl in He. congruence.
    + destruct Hrun as [_ ->]. cbn [snd]. by rewrite events_since_started.
Qed.

(** X7: a run of the Region Extractor queries the feature source exactly
    once when the output folder could be created, with the normalized name
    and the whole tag dictionary, and not at all otherwise; it never asks a
    second time. *)
Theorem one_query_per_run
    (E : env) (place_name : str) (tags_dict : tags) (output_folder : str)
    (w : world) :
  let p := replace (lit ",") [] output_folder in
  let q := query_place_of place_name in
  let run := extract_amenities_for_place E place_name tags_dict output_folder w in
  filter (fun e => is_query e = true) (events_since w run.2) =
  match (fs_makedirs p (fs w)).1 with
  | Returned _ => [EQuery q tags_dict]
  | Raised _ => []
  end.
Proof. apply queries_of_run. Qed.

(** ** What the Region Extractor returns *)

Lemma with_coords_point (r : row) :
  point_record r = true ->
  exists x y,
    geom_of (with_coords r) = Some (Point x y) /\
    at_col (lit "latitude") (with_coords r) = VFloat y /\
    at_col (lit "longitude") (with_coords r) = VFloat x.
Proof.
  unfold point_record, with_coords.
  destruct (geom_of r) as [[x y|]|] eqn:Hg; [|done..]. intros _.
  exists x, y. split; [|split].
  - by rewrite !geom_of_insert.
  - unfold at_col. by rewrite lookup_insert_ne, lookup_insert_eq.
  - unfold at_col. by rewrite lookup_insert_eq.
Qed.

Lemma kept_points_columns g : columns (kept_points g) = columns g.
Proof. unfold kept_points. by destruct (has_point g). Qed.

Lemma kept_points_sublist g : rows (kept_points g) `sublist_of` rows g.
Proof.
  unfold kept_points. destruct (has_point g); [apply sublist_filter|done].
Qed.

Lemma deduped_columns g : columns (deduped g) = columns g.
Proof. unfold deduped. by destruct (has_column _ g). Qed.

Lemma deduped_sublist g : rows (deduped g) `sublist_of` rows g.
Proof.
  unfold deduped. destruct (has_column _ g); [|done].
  apply boolean_index_rows_sublist.
Qed.

Lemma deduped_NoDup g :
  has_column (lit "osmid") g = true -> NoDup (series (lit "osmid") (deduped g)).
Proof.
  intros H. unfold deduped. rewrite H. apply dedup_rows_NoDup.
Qed.

Lemma Forall_of_sublist {A} (P : A -> Prop) (l k : list A) :
  l `sublist_of` k -> Forall P k -> Forall P l.
Proof.
  induction 1 as [|x l k _ IH|x l k _ IH]; [done|..];
    intros [? ?]%Forall_cons; [constructor|]; auto.
Qed.

Lemma has_column_columns key g g' :
  columns g' = columns g -> has_column key g' = has_column key g.
Proof. unfold has_column. by intros ->. Qed.

(** X8: a collection the Region Extractor returns comes from the one the
    source returned (as reprojected): its records are records of that
    collection, in order, with the coordinates added when there is a
    geometry column.  Then every returned record has a point geometry, its
    [latitude] is the point's y and its [longitude] the point's x.  With an
    [osmid] column no identifier occurs twice. *)
Theorem returned_collection_invariants
    (E : env) (place_name : str) (tags_dict : tags) (output_folder : str)
    (w : world) :
  let q := query_place_of place_name in
  match (extract_amenities_for_place E place_name tags_dict output_folder w).1 with
  | Returned (Some g) =>
      exists gq,
        features_from_place E q tags_dict = Returned (Some gq) /\
        let g0 := reprojected E gq in
        (if has_column (lit "geometry") g0 then
           rows g `sublist_of` (with_coords <$> rows g0) /\
           Forall (fun r => exists x y,
                     geom_of r = Some (Point x y) /\
                     at_col (lit "latitude") r = VFloat y /\
                     at_col (lit "longitude") r = VFloat x) (rows g)
         else rows g `sublist_of` rows g0) /\
        (if has_column (lit "osmid") g
         then NoDup (series (lit "osmid") g) else True)
  | _ => True
  end.
Proof.
  intros q.
  destruct (extract_outcome E place_name tags_dict output_folder w)
    as [(e & Hmk & Hrun)|(Hmk & [(_ & m & Hrun)|(gq & Hq & _ & ms & Hrun)])];
    fold q in Hrun; cbn zeta in *; [by rewrite Hrun..|].
  fold q in Hq.
  set (g0 := reprojected E gq) in *. set (g1 := kept_points g0) in *.
  destruct (extract_coordinates g1 w).1 as [g2|e] eqn:Hres;
    [|destruct Hrun as [_ ->]; done].
  rewrite Hrun. cbn [fst]. exists gq. split; [done|]. cbn zeta. fold g0. split.
  - assert (has_column (lit "geometry") g1 = has_column (lit "geometry") g0)
      as Hcol by apply has_column_columns, kept_points_columns.
    destruct (has_column (lit "geometry") g0) eqn:Hgeo.
    + destruct (extract_coordinates_returned g1 w g2 Hcol Hres)
        as (_ & Hrows & Hpoints & _).
      assert (Forall (fun r => exists x y,
                geom_of r = Some (Point x y) /\
                at_col (lit "latitude") r = VFloat y /\
                at_col (lit "longitude") r = VFloat x) (rows g2)) as Hall.
      { rewrite Hrows. apply Forall_fmap.
        eapply Forall_impl; [done|]. intros r. apply with_coords_point. }
      split.
      * etransitivity; [apply deduped_sublist|]. rewrite Hrows.
        apply fmap_sublist. etransitivity; [apply sublist_filter|].
        apply kept_points_sublist.
      * eapply Forall_of_sublist; [|done]. apply deduped_sublist.
    + rewrite extract_coordinates_result, Hcol in Hres. inversion Hres; subst.
      etransitivity; [apply deduped_sublist|apply kept_points_sublist].
  - rewrite (has_column_columns _ g2 (deduped g2)) by apply deduped_columns.
    destruct (has_column (lit "osmid") g2) eqn:Hid; [|done].
    by apply deduped_NoDup.
Qed.

Lemma extract_result E place_name tags_dict output_folder w w_any :
  (fs_makedirs (replace (lit ",") [] output_folder) (fs w)).1 = Returned tt ->
  (extract_amenities_for_place E place_name tags_dict output_folder w).1 =
  match features_from_place E (query_place_of place_name) tags_dict with
  | Raised _ => Returned None
  | Returned None => Returned None
  | Returned (Some g) =>
      if empty g then Returned None
      else
        match (extract_coordinates (kept_points (reprojected E g)) w_any).1 with
        | Raised e => Raised e
        | Returned g2 => Returned (Some (deduped g2))
        end
  end.
Proof.
  intros Hmk. rewrite extract_run, Hmk.
  destruct (features_from_place E _ tags_dict) as [[g|]|e]; [|done..].
  destruct (empty g); [done|].
  set (w0 := {| fs := _; trace := _ |}).
  destruct (process_run E g (query_place_of place_name) tags_dict
              (replace (lit ",") [] output_folder) w0) as (ms1 & ms2 & ->).
  rewrite (extract_coordinates_any_world _ w0 w_any).
  by destruct (extract_coordinates _ w_any).1.
Qed.

(** X9: a region for which the source returns only geometries that are not
    points (polygons, lines) makes the Region Extractor raise [ValueError]:
    the geometry-type stage keeps all the records, and the coordinate
    extraction that follows cannot read them. *)
Theorem shapes_only_raise_value_error
    (E : env) (place_name : str) (tags_dict : tags) (output_folder : str)
    (w : world) (g : GeoDataFrame) :
  (fs_makedirs (replace (lit ",") [] output_folder) (fs w)).1 = Returned tt ->
  features_from_place E (query_place_of place_name) tags_dict = Returned (Some g) ->
  empty g = false ->
  has_column (lit "geometry") (reprojected E g) = true ->
  has_point (reprojected E g) = false ->
  existsb shape_record (rows (reprojected E g)) = true ->
  (extract_amenities_for_place E place_name tags_dict output_folder w).1
  = Raised ValueError.
Proof.
  intros Hmk Hq Hempty Hgeo Hpoint Hshape.
  rewrite (extract_result _ _ _ _ _ w Hmk), Hq, Hempty.
  unfold kept_points. rewrite Hpoint.
  by rewrite extract_coordinates_result, Hgeo, Hshape.
Qed.

Lemma shapes_only_raise_value_error_witness :
  (extract_amenities_for_place Cases.park_source (lit "Stanley Park")
     [(lit "leisure", SelSeq [lit "park"])] (lit "out") Sample.fresh).1
  = Raised ValueError.
Proof.
  apply (shapes_only_raise_value_error Cases.park_source (lit "Stanley Park")
           [(lit "leisure", SelSeq [lit "park"])] (lit "out") Sample.fresh
           Cases.parks); reflexivity.
Defined.

(** X10: what the Region Extractor returns depends only on the answer of
    the source and on the reprojection: two runs that could create their
    output folders return the same, whatever their folders, their file
    systems, and the failures of their writers. *)
Theorem result_ignores_writers_and_files
    (E1 E2 : env) (place_name : str) (tags_dict : tags)
    (folder1 folder2 : str) (w1 w2 : world) :
  features_from_place E1 (query_place_of place_name) tags_dict
  = features_from_place E2 (query_place_of place_name) tags_dict ->
  (forall g, to_crs_4326 E1 g = to_crs_4326 E2 g) ->
  (fs_makedirs (replace (lit ",") [] folder1) (fs w1)).1 = Returned tt ->
  (fs_makedirs (replace (lit ",") [] folder2) (fs w2)).1 = Returned tt ->
  (extract_amenities_for_place E1 place_name tags_dict folder1 w1).1
  = (extract_amenities_for_place E2 place_name tags_dict folder2 w2).1.
Proof.
  intros Hq Hcrs Hmk1 Hmk2.
  rewrite (extract_result _ _ _ _ _ w1 Hmk1), (extract_result _ _ _ _ _ w1 Hmk2).
  rewrite Hq. unfold reprojected.
  destruct (features_from_place E2 _ tags_dict) as [[g|]|e]; [|done..].
  by rewrite Hcrs.
Qed.

Lemma result_ignores_writers_and_files_witness :
  (extract_amenities_for_place Sample.cafes (lit "Testville")
     [(lit "amenity", SelTrue)] (lit "out") Sample.fresh).1
  = (extract_amenities_for_place Cases.read_only (lit "Testville")
       [(lit "amenity", SelTrue)] (lit "elsewhere/x") Sample.blocked).1.
Proof.
  apply (result_ignores_writers_and_files Sample.cafes Cases.read_only
           (lit "Testville") [(lit "amenity", SelTrue)]
           (lit "out") (lit "elsewhere/x") Sample.fresh Sample.blocked);
    reflexivity.
Defined.

(** ** Selectors and the export of one tag (lines 86-120) *)

Lemma filter_sublist_impl {A} (P Q : A -> Prop)
    `{forall x, Decision (P x)} `{forall x, Decision (Q x)} (l : list A) :
  (forall x, P x -> Q x) -> filter P l `sublist_of` filter Q l.
Proof.
  intros HPQ. induction l as [|x l IH]; [done|].
  rewrite !filter_cons. destruct (decide (P x)) as [HP|HP].
  - rewrite decide_True by auto. by apply sublist_skip.
  - destruct (decide (Q x)); [by apply sublist_cons|done].
Qed.

(** X11: a string selector selects what the one-element sequence of that
    string selects; what a sequence selects is part of what [True] selects;
    the empty sequence selects nothing. *)
Theorem selectors_compare (key : str) (g : GeoDataFrame) (v : str) (vs : list str) :
  subset_for key (SelStr v) g = subset_for key (SelSeq [v]) g /\
  rows (subset_for key (SelSeq vs) g) `sublist_of` rows (subset_for key SelTrue g) /\
  rows (subset_for key (SelSeq []) g) = [].
Proof.
  split; [|split].
  - unfold subset_for. f_equal. apply list_fmap_ext. intros _ c _.
    destruct c; simpl; try done.
    apply bool_decide_ext. rewrite list_elem_of_singleton. done.
  - unfold subset_for. rewrite !boolean_index_series.
    apply filter_sublist_impl. intros r Hr.
    destruct (at_col key r); done.
  - unfold subset_for. rewrite boolean_index_series.
    apply filter_none, Forall_forall. intros r _.
    by destruct (at_col key r).
Qed.

(** X12: the export of one tag never raises, whatever the directory
    creation and the writers do.  It writes nothing for a key that is not a
    column and nothing for an empty subset (so nothing for a selector of an
    unsupported type); what it writes is the subset of the tag as GeoJSON
    and the same subset without its geometry column as CSV. *)
Theorem export_tag_calls
    (E : env) (g : GeoDataFrame) (query_place place_short output_folder : str)
    (key : str) (values : selector) (w : world) :
  let run :=
    export_tag E g query_place place_short output_folder (key, values) w in
  run.1 = Returned tt /\
  Forall (tag_event g key values) (events_since w run.2).
Proof.
  intros run. split; [apply export_tag_returns|].
  apply appends_events_since. subst run. revert w.
  change (always (appends (tag_event g key values))
            (export_tag E g query_place place_short output_folder (key, values))).
  assert (forall m, always (appends (tag_event g key values)) (print m)) as Hprint.
  { intros m w. exists [EPrint m]. split; [done|by constructor]. }
  unfold export_tag.
  destruct (has_column key g) eqn:Hkey; simpl; [|apply Hprint].
  destruct (empty (subset_for key values g)) eqn:Hempty; [apply Hprint|].
  apply always_bind; [apply appends_trans| |intros _].
  - apply (always_try_or_print _ (tag_event g key values)); try solve_appends.
    apply always_bind; [apply appends_trans| |intros _].
    + apply (always_os_makedirs _ (tag_event g key values)); solve_appends.
    + apply (always_to_file _ (tag_event g key values)); solve_appends.
  - apply (always_try_or_print _ (tag_event g key values)); try solve_appends.
    apply always_bind; [apply appends_trans| |intros _].
    + apply (always_os_makedirs _ (tag_event g key values)); solve_appends.
    + apply (always_to_csv _ (tag_event g key values)); solve_appends.
Qed.

(** ** The directory of every write is the output folder *)

Lemma split_sep_snoc_slash s : forall w,
  split_sep w (s ++ [slash]) = split_sep w s ++ [[]].
Proof.
  induction s as [|c s IH]; intros w; simpl; [done|].
  destruct (N.eqb c slash); by rewrite IH.
Qed.

Lemma startswith_slash_snoc s c :
  s <> [] -> startswith (lit "/") (s ++ [c]) = startswith (lit "/") s.
Proof. by destruct s. Qed.

Lemma resolve_snoc_slash s : s <> [] -> resolve (s ++ [slash]) = resolve s.
Proof.
  intros Hs. unfold resolve.
  rewrite startswith_slash_snoc by done. f_equal.
  rewrite split_sep_snoc_slash, List.filter_app. simpl. apply app_nil_r.
Qed.

Lemma resolve_slashes s k :
  s <> [] -> resolve (s ++ replicate k slash) = resolve s.
Proof.
  intros Hs. induction k as [|k IH]; [by rewrite app_nil_r|].
  rewrite replicate_S_end, app_assoc, resolve_snoc_slash; [done|].
  by destruct s.
Qed.

Lemma rstrip_sep_slashes s : exists k, s = rstrip_sep s ++ replicate k slash.
Proof.
  induction s as [|c s [k IH]]; simpl; [by exists 0|].
  destruct (rstrip_sep s) as [|d t] eqn:Ht.
  - destruct (N.eqb c slash) eqn:Hc.
    + apply N.eqb_eq in Hc. subst c. exists (S k). simpl in *. by rewrite <- IH.
    + exists k. simpl in *. by rewrite <- IH.
  - exists k. simpl in *. by rewrite <- IH.
Qed.

Lemma resolve_rstrip_sep s : rstrip_sep s <> [] -> resolve (rstrip_sep s) = resolve s.
Proof.
  intros Hne. destruct (rstrip_sep_slashes s) as [k Hk].
  rewrite Hk at 2. by rewrite resolve_slashes.
Qed.

Lemma rstrip_sep_nil s : rstrip_sep s = [] -> forallb (N.eqb slash) s = true.
Proof.
  induction s as [|c s IH]; [done|]. cbn [rstrip_sep forallb].
  destruct (rstrip_sep s); [|done].
  rewrite (N.eqb_sym slash c). destruct (N.eqb c slash); [|done].
  intros _. by apply IH.
Qed.

Lemma rfind_sep_end_no_sep b : slash ∉ b -> rfind_sep_end b = 0.
Proof.
  induction b as [|c b IH]; [done|]. cbn [rfind_sep_end].
  intros [Hc Hb]%not_elem_of_cons. rewrite IH by done.
  assert (N.eqb c slash = false) as -> by (by apply N.eqb_neq); done.
Qed.

Lemma rfind_sep_end_app a b :
  slash ∉ b -> rfind_sep_end (a ++ b) = rfind_sep_end a.
Proof.
  intros Hb. induction a as [|c a IH]; simpl; [by apply rfind_sep_end_no_sep|].
  by rewrite IH.
Qed.

Lemma rfind_sep_end_snoc a : rfind_sep_end (a ++ [slash]) = length (a ++ [slash]).
Proof.
  induction a as [|c a IH]; simpl; [done|].
  rewrite IH, length_app. simpl. by rewrite Nat.add_1_r.
Qed.

Lemma endswith_slash p :
  endswith (lit "/") p = true -> exists p', p = p' ++ [slash].
Proof.
  unfold endswith. change (rev (lit "/")) with [slash].
  destruct (rev p) as [|c r] eqn:Hrev; [done|].
  cbn [startswith]. rewrite andb_true_r. intros Hc%N.eqb_eq. subst c.
  exists (rev r). by rewrite <- (rev_involutive p), Hrev.
Qed.

Lemma startswith_slash_no_sep name : slash ∉ name -> startswith (lit "/") name = false.
Proof.
  destruct name as [|c name]; [done|]. intros [Hc _]%not_elem_of_cons.
  change (lit "/") with [slash]. cbn [startswith].
  rewrite andb_true_r. by apply N.eqb_neq.
Qed.

(** The part of [os.path.join(p, name)] before the last separator. *)
Lemma join_head p name :
  p <> [] -> slash ∉ name ->
  exists head,
    take (rfind_sep_end (os_path_join p name)) (os_path_join p name) = head /\
    head <> [] /\ resolve head = resolve p.
Proof.
  intros Hp Hname. unfold os_path_join.
  rewrite startswith_slash_no_sep by done.
  rewrite bool_decide_eq_false_2 by done. cbn [orb].
  change (lit "/") with [slash].
  destruct (endswith [slash] p) eqn:Hend.
  - destruct (endswith_slash p Hend) as [p' ->].
    exists (p' ++ [slash]). rewrite rfind_sep_end_app, rfind_sep_end_snoc by done.
    by rewrite take_app_length.
  - exists (p ++ [slash]).
    rewrite app_assoc, rfind_sep_end_app, rfind_sep_end_snoc by done.
    rewrite take_app_length. split; [done|]. split; [by destruct p|].
    by apply resolve_snoc_slash.
Qed.

Lemma later_makedirs_same p name :
  p <> [] -> slash ∉ name ->
  let d := str_or (os_path_dirname (os_path_join p name)) p in
  d <> [] /\ resolve d = resolve p.
Proof.
  intros Hp Hname d. subst d. unfold os_path_dirname.
  destruct (join_head p name Hp Hname) as (head & -> & Hne & Hres).
  destruct (bool_decide (head <> []) && negb (forallb (N.eqb slash) head)) eqn:Hc.
  - apply andb_true_iff in Hc as [_ Hc%negb_true_iff].
    assert (rstrip_sep head <> []) as Hne'.
    { intros H%rstrip_sep_nil. congruence. }
    destruct (rstrip_sep head) eqn:Hr; [done|]. simpl.
    split; [done|]. by rewrite <- Hr, resolve_rstrip_sep, Hres by (by rewrite Hr).
  - destruct head; [done|]. by simpl.
Qed.

Lemma fs_makedirs_same_resolve d p f :
  d <> [] -> p <> [] -> resolve d = resolve p -> fs_makedirs d f = fs_makedirs p f.
Proof. intros Hd Hp Hres. unfold fs_makedirs. destruct d, p; try done. by rewrite Hres. Qed.

(** ** Every export is attempted *)

Lemma bind_after {A B} (m : M A) (k : A -> M B) a w :
  (m w).1 = Returned a -> bind m k w = k a (m w).2.
Proof. unfold bind. destruct (m w) as [[a'|e] w1]; simpl; congruence. Qed.

Lemma folder_ready_nonempty p w : folder_ready p w -> p <> [].
Proof. unfold folder_ready, fs_makedirs. by destruct p. Qed.

(** One [try] block: the directory, then the writer. *)
Lemma save_block_run p d ev (err : option exn) c path msg w :
  folder_ready p w -> d <> [] -> resolve d = resolve p ->
  exists ms f',
    try_or_print
      (os_makedirs d ;;
       (emit ev ;;
        match err with
        | Some e => raise e
        | None => on_fs (fs_write path c)
        end))
      msg w
    = (Returned tt,
       {| fs := f'; trace := trace w ++ EMakedirs d :: ev :: (EPrint <$> ms) |}) /\
    forall k, isdir (fs w) k = true -> isdir f' k = true.
Proof.
  intros Hready Hd Hres.
  pose proof (folder_ready_nonempty p w Hready) as Hp.
  unfold try_or_print, attempt, os_makedirs, bind, emit, on_fs. simpl.
  rewrite (fs_makedirs_same_resolve d p) by done. rewrite Hready.
  destruct err as [e|]; simpl.
  - exists [msg e], (fs w). split; [|done]. unfold print, emit. simpl.
    by rewrite <- !app_assoc.
  - pose proof (fs_write_keeps_dirs path c (fs w)) as Hkeep.
    destruct (fs_write path c (fs w)) as [[[]|e] f']; simpl in *.
    + exists [], f'. split; [|done]. unfold ret. by rewrite <- !app_assoc.
    + exists [msg e], f'. split; [|done]. unfold print, emit. simpl.
      by rewrite <- !app_assoc.
Qed.

Lemma save_block p d ev (err : option exn) c path msg w :
  folder_ready p w -> d <> [] -> resolve d = resolve p ->
  let w' :=
    (try_or_print
       (os_makedirs d ;;
        (emit ev ;;
         match err with
         | Some e => raise e
         | None => on_fs (fs_write path c)
         end))
       msg w).2 in
  folder_ready p w' /\
  exists ms, trace w' = trace w ++ EMakedirs d :: ev :: (EPrint <$> ms).
Proof.
  intros Hready Hd Hres w'. subst w'.
  destruct (save_block_run p d ev err c path msg w Hready Hd Hres)
    as (ms & f' & -> & Hkeep).
  split; [|by exists ms].
  by apply (fs_makedirs_again p (fs w) (fs w) f' Hready).
Qed.

Lemma export_pair_run E g sub p name msg1 msg2 w :
  folder_ready p w -> (forall c, c ∈ name -> name_char c) ->
  let w' :=
    (bind
       (try_or_print
          (os_makedirs (str_or (os_path_dirname (os_path_join p name)) p) ;;
           to_file E g (os_path_join p name)) msg1)
       (fun _ =>
          try_or_print
            (os_makedirs
               (str_or (os_path_dirname (os_path_join p (csv_name name))) p) ;;
             to_csv E sub (os_path_join p (csv_name name))) msg2) w).2 in
  folder_ready p w' /\
  exists evs,
    trace w' = trace w ++ evs /\
    EToFile (os_path_join p name) g ∈ evs /\
    EToCsv (os_path_join p (csv_name name)) sub ∈ evs.
Proof.
  intros Hready Hname.
  pose proof (folder_ready_nonempty p w Hready) as Hp.
  assert (slash ∉ name) as Hs1 by (intros H; by apply Hname in H as [_ ?]).
  assert (slash ∉ csv_name name) as Hs2
    by (intros H; by eapply csv_name_chars in H as [_ ?]).
  destruct (later_makedirs_same p name Hp Hs1) as [Hd1 Hr1].
  destruct (later_makedirs_same p (csv_name name) Hp Hs2) as [Hd2 Hr2].
  rewrite (bind_after _ _ tt) by apply try_or_print_returns.
  unfold to_file, to_csv.
  destruct (save_block p _ (EToFile (os_path_join p name) g)
              (to_file_error E (os_path_join p name) g) (GeoJSON g)
              (os_path_join p name) msg1 w Hready Hd1 Hr1) as [Hready1 [ms1 Htr1]].
  destruct (save_block p _ (EToCsv (os_path_join p (csv_name name)) sub)
              (to_csv_error E (os_path_join p (csv_name name)) sub) (CSV sub)
              (os_path_join p (csv_name name)) msg2 _ Hready1 Hd2 Hr2)
    as [Hready2 [ms2 Htr2]].
  split; [done|]. eexists. split.
  - rewrite Htr2, Htr1, <- app_assoc. done.
  - rewrite !elem_of_app, !elem_of_cons. split; [left|right]; tauto.
Qed.

Lemma export_combined_run E g q p w :
  folder_ready p w ->
  let name := clean_name q ++ lit "_all_amenities.geojson" in
  let w' := (export_combined E g (clean_name q) p w).2 in
  folder_ready p w' /\
  exists evs,
    trace w' = trace w ++ evs /\
    EToFile (os_path_join p name) g ∈ evs /\
    EToCsv (os_path_join p (csv_name name)) (drop_column (lit "geometry") g) ∈ evs.
Proof.
  intros Hready name. apply (export_pair_run E g _ p name); [done|].
  intros c. apply (geojson_names_chars q []). left.
Qed.

Lemma export_tag_run E g q p key values w :
  folder_ready p w ->
  let sub := subset_for key values g in
  let name := tag_fname (clean_name q) key in
  let w' := (export_tag E g q (clean_name q) p (key, values) w).2 in
  folder_ready p w' /\
  exists evs,
    trace w' = trace w ++ evs /\
    (has_column key g = true -> empty sub = false ->
     EToFile (os_path_join p name) sub ∈ evs /\
     EToCsv (os_path_join p (csv_name name)) (drop_column (lit "geometry") sub) ∈ evs).
Proof.
  intros Hready sub name. unfold export_tag. fold sub.
  destruct (has_column key g); simpl.
  - destruct (empty sub).
    + split; [done|]. by exists [EPrint (MsgNoSubset key values q)].
    + destruct (export_pair_run E sub (drop_column (lit "geometry") sub) p name
                  (MsgSubsetGeoError key) (MsgSubsetCsvError key) w Hready)
        as [Hready' (evs & Htr & Hin)].
      { intros c. apply (geojson_names_chars q [(key, values)]). right. left. }
      split; [done|]. exists evs. split; [done|]. by intros _ _.
  - split; [done|]. by exists [EPrint (MsgTagMissing key q)].
Qed.

Lemma tags_run E g q p tags_dict : forall w,
  folder_ready p w ->
  let w' := (for_each tags_dict (export_tag E g q (clean_name q) p) w).2 in
  folder_ready p w' /\
  exists evs,
    trace w' = trace w ++ evs /\
    Forall (fun item : list N * selector =>
      has_column item.1 g = true -> empty (subset_for item.1 item.2 g) = false ->
      EToFile (os_path_join p (tag_fname (clean_name q) item.1))
        (subset_for item.1 item.2 g) ∈ evs /\
      EToCsv (os_path_join p (csv_name (tag_fname (clean_name q) item.1)))
        (drop_column (lit "geometry") (subset_for item.1 item.2 g)) ∈ evs)
      tags_dict.
Proof.
  induction tags_dict as [|[key values] tags_dict IH]; intros w Hready;
    cbn [for_each].
  { split; [done|]. exists []. split; [by rewrite app_nil_r|constructor]. }
  rewrite (bind_after _ _ tt) by apply export_tag_returns.
  destruct (export_tag_run E g q p key values w Hready) as [Hready1 (evs1 & Htr1 & H1)].
  destruct (IH _ Hready1) as [Hready2 (evs2 & Htr2 & H2)].
  split; [done|]. exists (evs1 ++ evs2). split.
  - by rewrite Htr2, Htr1, app_assoc.
  - constructor.
    + simpl. intros Hk He. destruct (H1 Hk He). rewrite !elem_of_app. auto.
    + eapply Forall_impl; [done|]. simpl. intros item Hitem Hk He.
      destruct (Hitem Hk He). rewrite !elem_of_app. auto.
Qed.

Lemma all_exports_run E g q tags_dict p w :
  folder_ready p w ->
  let name := clean_name q ++ lit "_all_amenities.geojson" in
  exists evs,
    trace (all_exports E g q tags_dict p w).2 = trace w ++ evs /\
    EToFile (os_path_join p name) g ∈ evs /\
    EToCsv (os_path_join p (csv_name name)) (drop_column (lit "geometry") g) ∈ evs /\
    Forall (fun item : list N * selector =>
      has_column item.1 g = true -> empty (subset_for item.1 item.2 g) = false ->
      EToFile (os_path_join p (tag_fname (clean_name q) item.1))
        (subset_for item.1 item.2 g) ∈ evs /\
      EToCsv (os_path_join p (csv_name (tag_fname (clean_name q) item.1)))
        (drop_column (lit "geometry") (subset_for item.1 item.2 g)) ∈ evs)
      tags_dict.
Proof.
  intros Hready name. unfold all_exports.
  rewrite (bind_after _ _ tt) by apply export_combined_returns.
  destruct (export_combined_run E g q p w Hready) as [Hready1 (evs1 & Htr1 & Hg & Hc)].
  destruct (tags_run E g q p tags_dict _ Hready1) as [_ (evs2 & Htr2 & Htags)].
  exists (evs1 ++ evs2). split; [by rewrite Htr2, Htr1, app_assoc|].
  rewrite !elem_of_app. split; [by left|]. split; [by left|].
  eapply Forall_impl; [done|]. simpl. intros item Hitem Hk He.
  destruct (Hitem Hk He). rewrite !elem_of_app. auto.
Qed.

(** X13: whenever the Region Extractor returns a collection, it has tried to
    write the two combined files, holding that collection, and the two files
    of every tag whose key is a column and whose subset is not empty,
    holding that subset: the failure of a directory creation or of a writer
    stops none of the exports that follow. *)
Theorem every_export_is_attempted
    (E : env) (place_name : str) (tags_dict : tags) (output_folder : str)
    (w : world) (g : GeoDataFrame) :
  let p := replace (lit ",") [] output_folder in
  let place_short := clean_name (query_place_of place_name) in
  let run := extract_amenities_for_place E place_name tags_dict output_folder w in
  let evs := events_since w run.2 in
  run.1 = Returned (Some g) ->
  EToFile (os_path_join p (place_short ++ lit "_all_amenities.geojson")) g ∈ evs /\
  EToCsv (os_path_join p (csv_name (place_short ++ lit "_all_amenities.geojson")))
    (drop_column (lit "geometry") g) ∈ evs /\
  Forall (fun item : list N * selector =>
    has_column item.1 g = true -> empty (subset_for item.1 item.2 g) = false ->
    EToFile (os_path_join p (tag_fname place_short item.1))
      (subset_for item.1 item.2 g) ∈ evs /\
    EToCsv (os_path_join p (csv_name (tag_fname place_short item.1)))
      (drop_column (lit "geometry") (subset_for item.1 item.2 g)) ∈ evs)
    tags_dict.
Proof.
  intros p place_short run evs Hret. subst evs.
  destruct (extract_outcome E place_name tags_dict output_folder w)
    as [(e & Hmk & Hrun)|(Hmk & [(_ & m & Hrun)|(gq & _ & _ & ms & Hrun)])];
    fold p run in Hmk, Hrun; cbn zeta in *;
    [rewrite Hrun in Hret; discriminate..|].
  destruct (extract_coordinates _ w).1 as [g2|e];
    [|destruct Hrun as [_ Hrun]; rewrite Hrun in Hret; discriminate].
  rewrite Hrun in Hret. injection Hret as <-.
  set (w0 := started w p _) in Hrun.
  assert (folder_ready p w0) as Hready.
  { unfold folder_ready. subst w0. cbn [fs started].
    destruct (fs_makedirs p (fs w)) as [r f1] eqn:Hf. simpl in Hmk. subst r.
    by apply (fs_makedirs_again p (fs w) f1 f1). }
  destruct (all_exports_run E (deduped g2) (query_place_of place_name) tags_dict
              p w0 Hready) as (evs & Htr & Hgeo & Hcsv & Htags).
  assert (forall e, e ∈ evs -> e ∈ events_since w run.2) as Hin.
  { intros e He. rewrite Hrun. cbn [snd]. unfold events_since. rewrite Htr.
    subst w0. cbn [trace started]. rewrite <- app_assoc, drop_app_length.
    apply elem_of_app. by right. }
  split; [by apply Hin|]. split; [by apply Hin|].
  eapply Forall_impl; [done|]. simpl. intros item Hitem Hk He.
  destruct (Hitem Hk He). split; by apply Hin.
Qed.

Lemma every_export_is_attempted_witness :
  let run := extract_amenities_for_place Cases.read_only (lit "Testville")
               [(lit "amenity", SelTrue)] (lit "out") Sample.fresh in
  exists g,
    run.1 = Returned (Some g) /\
    EToFile (lit "out/Testville_all_amenities.geojson") g
      ∈ events_since Sample.fresh run.2 /\
    EToCsv (lit "out/Testville_amenity.csv")
      (drop_column (lit "geometry") (subset_for (lit "amenity") SelTrue g))
      ∈ events_since Sample.fresh run.2.
Proof.
  intros run. eexists. split; [by vm_compute|].
  destruct (every_export_is_attempted Cases.read_only (lit "Testville")
              [(lit "amenity", SelTrue)] (lit "out") Sample.fresh _
              ltac:(by vm_compute)) as (Hgeo & _ & Htags).
  split; [exact Hgeo|].
  apply Forall_cons in Htags as [Htag _].
  destruct (Htag ltac:(by vm_compute) ltac:(by vm_compute)) as [_ Hcsv].
  exact Hcsv.
Defined.

(** ** More on the Batch Driver *)

Lemma always_batch (R : relation world) E provinces_list tags_dict output_root_folder :
  (forall w, R w w) ->
  (forall w1 w2 w3, R w1 w2 -> R w2 w3 -> R w1 w3) ->
  (forall prov_clean, always R (print (MsgExtracting prov_clean))) ->
  (forall prov, prov ∈ provinces_list ->
     always R (extract_amenities_for_place E prov tags_dict
                 (os_path_join output_root_folder (clean_name prov)))) ->
  always R (extract_for_provinces E provinces_list tags_dict output_root_folder).
Proof.
  intros Hrefl Htrans Hprint Hextract. unfold extract_for_provinces.
  apply always_for_each; [done|done|]. intros prov Hprov.
  apply always_bind; [done|apply Hprint|intros _].
  apply always_bind; [done|by apply Hextract|intros _].
  by apply always_ret.
Qed.

Lemma appends_weaken (phi psi : event -> Prop) w w' :
  (forall e, phi e -> psi e) -> appends phi w w' -> appends psi w w'.
Proof.
  intros Himpl (evs & Htr & Hevs). exists evs. split; [done|].
  by eapply Forall_impl.
Qed.

Lemma os_path_join_prefix a b :
  startswith (lit "/") b = false -> a `prefix_of` os_path_join a b.
Proof.
  intros Hb. unfold os_path_join. rewrite Hb.
  destruct (_ || _); by apply prefix_app_r.
Qed.

(** X14: when the root folder has no comma in its name, every file a batch
    writes has a path that begins with the root folder. *)
Theorem batch_writes_under_root
    (E : env) (provinces_list : list str) (tags_dict : tags)
    (output_root_folder : str) (w : world) :
  comma ∉ output_root_folder ->
  Forall (fun e =>
    match e with
    | EToFile f _ | EToCsv f _ => output_root_folder `prefix_of` f
    | _ => True
    end)
    (events_since w
       (extract_for_provinces E provinces_list tags_dict output_root_folder w).2).
Proof.
  intros Hroot. apply appends_events_since. revert w.
  apply always_batch.
  - apply appends_refl.
  - apply appends_trans.
  - intros prov_clean w. exists [EPrint (MsgExtracting prov_clean)].
    split; [done|by constructor].
  - intros prov _ w.
    eapply appends_weaken; [|apply extractor_appends].
    set (folder := os_path_join output_root_folder (clean_name prov)).
    assert (slash ∉ clean_name prov) as Hslash
      by (intros H; by apply clean_name_chars in H as (_ & ? & _)).
    assert (comma ∉ folder) as Hcomma.
    { intros [H|[H|H]]%elem_of_os_path_join; [done| |done].
      by apply clean_name_chars in H as (? & _). }
    assert (output_root_folder `prefix_of` folder) as Hpre
      by (by apply os_path_join_prefix, startswith_slash_no_sep).
    assert (forall name,
      (forall c, c ∈ name -> name_char c) ->
      output_root_folder `prefix_of` os_path_join folder name) as Hfile.
    { intros name Hname. etransitivity; [done|].
      apply os_path_join_prefix, startswith_slash_no_sep.
      intros H. by apply Hname in H as [_ ?]. }
    intros [d|?|f g|f g|?]; unfold extractor_event;
      rewrite ?(replace_comma_id folder) by done; try done.
    + intros (name & Hname & ->). apply Hfile.
      intros c. by apply (geojson_names_chars _ _ _ c Hname).
    + intros (name & Hname & ->). apply Hfile.
      intros c. apply csv_name_chars.
      intros c'. by apply (geojson_names_chars _ _ _ c' Hname).
Qed.

Lemma batch_writes_under_root_witness :
  Forall (fun e =>
    match e with
    | EToFile f _ | EToCsv f _ => lit "osm_helper_data" `prefix_of` f
    | _ => True
    end)
    (events_since Sample.fresh (Main.main Sample.cafes Sample.fresh).2).
Proof.
  apply (batch_writes_under_root Sample.cafes Main.provinces Main.tags
           Main.output_folder Sample.fresh).
  refine (bool_decide_unpack _ _). vm_compute. exact I.
Defined.

Lemma keeps_files_trans w1 w2 w3 :
  keeps_files w1 w2 -> keeps_files w2 w3 -> keeps_files w1 w3.
Proof. intros H1 H2 k c. etransitivity; [apply H2|apply H1]. Qed.

(** X15: when the source has nothing for any region (it raises, returns
    [None] or returns an empty collection), a batch makes no call that
    writes a file and leaves every regular file as it was; all it does on
    disk is create directories. *)
Theorem batch_without_features_writes_nothing
    (E : env) (provinces_list : list str) (tags_dict : tags)
    (output_root_folder : str) (w : world) :
  (forall q, no_features (features_from_place E q tags_dict) = true) ->
  let run :=
    extract_for_provinces E provinces_list tags_dict output_root_folder w in
  Forall (fun e => is_write e = false) (events_since w run.2) /\
  keeps_files w run.2.
Proof.
  intros Hnone run. subst run.
  set (R := fun w w' : world =>
              appends (fun e => is_write e = false) w w' /\ keeps_files w w').
  enough (always R (extract_for_provinces E provinces_list tags_dict
                      output_root_folder)) as H.
  { destruct (H w) as [Happ Hfiles]. split; [|done].
    by apply appends_events_since. }
  apply always_batch.
  - intros w0. split; [apply appends_refl|done].
  - intros w1 w2 w3 [Ha1 Hf1] [Ha2 Hf2].
    split; [by eapply appends_trans|by eapply keeps_files_trans].
  - intros prov_clean w0. split; [|done].
    exists [EPrint (MsgExtracting prov_clean)]. split; [done|by constructor].
  - intros prov _ w0.
    destruct (extract_outcome E prov tags_dict
                (os_path_join output_root_folder (clean_name prov)) w0)
      as [(e & Hmk & Hrun)|(Hmk & [(_ & m & Hrun)|(g & Hq & Hempty & _)])];
      cbn zeta in *.
    + rewrite Hrun. split; [|apply keeps_files_started].
      eexists. split; [done|]. by repeat constructor.
    + rewrite Hrun. split; [|apply keeps_files_started].
      eexists. split; [done|]. by repeat constructor.
    + specialize (Hnone (query_place_of prov)). rewrite Hq in Hnone.
      simpl in Hnone. congruence.
Qed.

Lemma batch_without_features_writes_nothing_witness :
  let run := Main.main Sample.failing Sample.blocked in
  Forall (fun e => is_write e = false) (events_since Sample.blocked run.2) /\
  keeps_files Sample.blocked run.2.
Proof.
  apply (batch_without_features_writes_nothing Sample.failing Main.provinces
           Main.tags Main.output_folder Sample.blocked).
  intros q. reflexivity.
Defined.

(** ** Points, reprojection, and the order of the queries *)

Lemma kept_points_no_shape g :
  has_point g = true -> existsb shape_record (rows (kept_points g)) = false.
Proof.
  intros Hp. unfold kept_points. rewrite Hp. cbn [rows].
  destruct (existsb _ _) eqn:Hex; [|done].
  apply existsb_exists in Hex as (r & Hr & Hs).
  apply list_elem_of_In, list_elem_of_filter in Hr as [Hr _].
  unfold shape_record in Hs. unfold point_record in Hr.
  by destruct (geom_of r) as [[]|].
Qed.

(** X16: a region for which the source returns at least one point always
    yields a collection: with a point among its geometries the run of the
    Region Extractor cannot raise once its output folder is created. *)
Theorem points_give_a_result
    (E : env) (place_name : str) (tags_dict : tags) (output_folder : str)
    (w : world) (g : GeoDataFrame) :
  (fs_makedirs (replace (lit ",") [] output_folder) (fs w)).1 = Returned tt ->
  features_from_place E (query_place_of place_name) tags_dict = Returned (Some g) ->
  empty g = false ->
  has_point (reprojected E g) = true ->
  exists g',
    (extract_amenities_for_place E place_name tags_dict output_folder w).1
    = Returned (Some g') /\
    Forall (fun r => point_record r = true) (rows g').
Proof.
  intros Hmk Hq Hempty Hpoint.
  rewrite (extract_result _ _ _ _ _ w Hmk), Hq, Hempty.
  set (g1 := kept_points (reprojected E g)).
  assert (has_column (lit "geometry") g1 = true) as Hgeo.
  { rewrite (has_column_columns _ (reprojected E g)) by apply kept_points_columns.
    unfold has_point in Hpoint. by apply andb_true_iff in Hpoint as [? _]. }
  destruct (extract_coordinates g1 w).1 as [g2|e] eqn:Hres.
  - exists (deduped g2). split; [done|].
    destruct (extract_coordinates_returned g1 w g2 Hgeo Hres)
      as (_ & Hrows & Hpoints & _).
    eapply Forall_of_sublist; [apply deduped_sublist|].
    rewrite Hrows. apply Forall_fmap.
    eapply Forall_impl; [done|]. intros r Hr. simpl.
    destruct (with_coords_point r Hr) as (x & y & Hg & _).
    unfold point_record. by rewrite Hg.
  - rewrite extract_coordinates_result, Hgeo in Hres. subst g1.
    by rewrite (kept_points_no_shape _ Hpoint) in Hres.
Qed.

Lemma points_give_a_result_witness :
  exists g',
    (extract_amenities_for_place Sample.cafes (lit "Testville")
       [(lit "amenity", SelTrue)] (lit "out") Sample.fresh).1
    = Returned (Some g') /\
    Forall (fun r => point_record r = true) (rows g').
Proof.
  apply (points_give_a_result Sample.cafes (lit "Testville")
           [(lit "amenity", SelTrue)] (lit "out") Sample.fresh Sample.testville);
    reflexivity.
Defined.

(** X17: a reprojection that raises is ignored: the run is the run the
    Region Extractor makes when the reprojection returns the collection
    unchanged. *)
Theorem failed_reprojection_is_ignored
    (E : env) (place_name : str) (tags_dict : tags) (output_folder : str)
    (w : world) :
  (forall g, features_from_place E (query_place_of place_name) tags_dict
             = Returned (Some g) ->
             exists e, to_crs_4326 E g = Raised e) ->
  extract_amenities_for_place E place_name tags_dict output_folder w
  = extract_amenities_for_place (without_reprojection E) place_name tags_dict
      output_folder w.
Proof.
  intros Hfail. rewrite !extract_run. cbn [features_from_place without_reprojection].
  destruct (fs_makedirs _ (fs w)).1 as [[]|e]; [|done].
  destruct (features_from_place E _ tags_dict) as [[g|]|e] eqn:Hq; [|done..].
  destruct (empty g); [done|].
  destruct (Hfail g eq_refl) as [e He].
  unfold process_collection. unfold bind at 1 6. unfold attempt, lift.
  cbn [to_crs_4326 without_reprojection]. by rewrite He.
Qed.

Lemma failed_reprojection_is_ignored_witness :
  let E := {| features_from_place := fun _ _ => Returned (Some Sample.testville);
              to_crs_4326 := fun _ => Raised (OtherError (lit "CRSError"));
              to_file_error := fun _ _ => None;
              to_csv_error := fun _ _ => None |} in
  extract_amenities_for_place E (lit "Testville") [(lit "amenity", SelTrue)]
    (lit "out") Sample.fresh
  = extract_amenities_for_place (without_reprojection E) (lit "Testville")
      [(lit "amenity", SelTrue)] (lit "out") Sample.fresh.
Proof.
  intros E.
  apply (failed_reprojection_is_ignored E (lit "Testville")
           [(lit "amenity", SelTrue)] (lit "out") Sample.fresh).
  intros g _. by eexists.
Defined.

Lemma batch_queries E tags_dict output_root_folder provinces_list : forall w,
  let run :=
    extract_for_provinces E provinces_list tags_dict output_root_folder w in
  exists evs k,
    trace run.2 = trace w ++ evs /\
    filter (fun e => is_query e = true) evs
    = query_event tags_dict <$> take k provinces_list /\
    match run.1 with
    | Returned _ => k = length provinces_list
    | Raised _ => True
    end.
Proof.
  induction provinces_list as [|prov provs IH]; intros w run; subst run.
  { exists [], 0. simpl. by rewrite app_nil_r. }
  rewrite extract_for_provinces_cons. cbn zeta.
  set (w0 := {| fs := fs w; trace := trace w ++ [_] |}).
  set (folder := os_path_join output_root_folder (clean_name prov)).
  pose proof (extractor_appends E prov tags_dict folder w0) as (evs1 & Htr1 & _).
  pose proof (queries_of_run E prov tags_dict folder w0) as Hq1.
  cbn zeta in Hq1. unfold events_since in Hq1.
  rewrite Htr1, drop_app_length in Hq1.
  pose proof (extract_run E prov tags_dict folder w0) as Hrun. cbn zeta in Hrun.
  destruct (extract_amenities_for_place E prov tags_dict folder w0)
    as [[x|e] w1] eqn:Hex; cbn [fst snd] in *.
  - assert (filter (fun e => is_query e = true) evs1 = [query_event tags_dict prov])
      as Hq1'.
    { rewrite Hq1. destruct (fs_makedirs _ (fs w0)).1; [done|discriminate]. }
    destruct (IH w1) as (evs2 & k & Htr2 & Hq2 & Hres).
    exists ([EPrint (MsgExtracting (clean_name prov))] ++ evs1 ++ evs2), (S k).
    split; [|split].
    + rewrite Htr2, Htr1. subst w0. simpl. by rewrite <- !app_assoc.
    + rewrite !filter_app, Hq1', Hq2. done.
    + destruct (extract_for_provinces E provs _ _ w1).1; [by rewrite Hres|done].
  - exists ([EPrint (MsgExtracting (clean_name prov))] ++ evs1),
      (match (fs_makedirs (replace (lit ",") [] folder) (fs w0)).1 with
       | Returned _ => 1 | Raised _ => 0 end).
    split; [|split; [|done]].
    + rewrite Htr1. subst w0. simpl. by rewrite <- !app_assoc.
    + rewrite filter_app, Hq1.
      by destruct (fs_makedirs _ (fs w0)).1.
Qed.

(** X18: a batch queries the source for the regions in input order, each
    region at most once and never a region after one that was not queried;
    a batch that returns has queried every region of the list. *)
Theorem batch_queries_in_order
    (E : env) (provinces_list : list str) (tags_dict : tags)
    (output_root_folder : str) (w : world) :
  let run :=
    extract_for_provinces E provinces_list tags_dict output_root_folder w in
  exists k,
    filter (fun e => is_query e = true) (events_since w run.2)
    = query_event tags_dict <$> take k provinces_list /\
    match run.1 with
    | Returned _ => k = length provinces_list
    | Raised _ => True
    end.
Proof.
  intros run. subst run.
  destruct (batch_queries E tags_dict output_root_folder provinces_list w)
    as (evs & k & Htr & Hq & Hres).
  exists k. split; [|done].
  unfold events_since. by rewrite Htr, drop_app_length.
Qed.


(** ** The Batch Driver and the exceptions of an invocation *)

Lemma extract_for_provinces_app E pre l tags_dict output_root_folder w :
  extract_for_provinces E (pre ++ l) tags_dict output_root_folder w =
  match extract_for_provinces E pre tags_dict output_root_folder w with
  | (Returned _, w1) => extract_for_provinces E l tags_dict output_root_folder w1
  | (Raised e, w1) => (Raised e, w1)
  end.
Proof.
  revert w. induction pre as [|prov pre IH]; intros w; [done|].
  change ((prov :: pre) ++ l) with (prov :: (pre ++ l)).
  rewrite !extract_for_provinces_cons. cbn zeta.
  destruct (extract_amenities_for_place E prov tags_dict _ _) as [[x|e] w1];
    [apply IH|done].
Qed.

(** C1, as the code has it: the Batch Driver announces and invokes the
    Region Extractor for the regions in input order.  Once the regions
    before a region are done, it invokes the extractor for that region and
    does what the invocation does: when the invocation returns, also with no
    result after a query that raised or found nothing, the batch goes on
    with the regions that follow; when it raises, the batch ends there with
    that exception and nothing is done for the regions that follow.  A
    failed creation of the region's directory is such an exception: the
    announcement and the [os.makedirs] call are the last things the batch
    does. *)
Theorem batch_continues_until_an_invocation_raises
    (E : env) (provinces_list : list str) (tags_dict : tags)
    (output_root_folder : str) (w : world) :
  let batch l := extract_for_provinces E l tags_dict output_root_folder in
  let run := batch provinces_list w in
  (exists done rest,
     provinces_list = done ++ rest /\
     announced (events_since w run.2) = clean_name <$> done /\
     match run.1 with
     | Returned _ => rest = []
     | Raised e =>
         exists prov w0,
           last done = Some prov /\
           extract_amenities_for_place E prov tags_dict
             (os_path_join output_root_folder (clean_name prov)) w0
           = (Raised e, run.2)
     end) /\
  forall (pre : list str) (prov : str) (post : list str) (w1 : world),
    provinces_list = pre ++ prov :: post ->
    batch pre w = (Returned tt, w1) ->
    let folder := os_path_join output_root_folder (clean_name prov) in
    let p := replace (lit ",") [] folder in
    let announce := EPrint (MsgExtracting (clean_name prov)) in
    let inv :=
      extract_amenities_for_place E prov tags_dict folder
        {| fs := fs w1; trace := trace w1 ++ [announce] |} in
    run = match inv.1 with
          | Returned _ => batch post inv.2
          | Raised e => (Raised e, inv.2)
          end /\
    ((fs_makedirs p (fs w1)).1 = Returned tt ->
     no_features (features_from_place E (query_place_of prov) tags_dict) = true ->
     inv.1 = Returned None) /\
    (forall e, (fs_makedirs p (fs w1)).1 = Raised e ->
       run.1 = Raised e /\
       events_since w1 run.2 = [announce; EMakedirs p]).
Proof.
  intros batch run. subst run batch. cbn beta. split.
  { destruct (batch_run E tags_dict output_root_folder provinces_list w)
      as (evs & done & rest & Htr & Hsplit & Hann & Hres).
    exists done, rest. split; [done|]. split; [|done].
    unfold events_since. by rewrite Htr, drop_app_length. }
  intros pre prov post w1 -> Hpre folder p announce inv.
  assert (extract_for_provinces E (pre ++ prov :: post) tags_dict
            output_root_folder w
          = match inv.1 with
            | Returned _ =>
                extract_for_provinces E post tags_dict output_root_folder inv.2
            | Raised e => (Raised e, inv.2)
            end) as Hrun.
  { rewrite extract_for_provinces_app, Hpre, extract_for_provinces_cons.
    cbn zeta. fold folder announce inv. by destruct inv as [[x|e] w2]. }
  split; [done|]. rewrite Hrun. clear Hrun.
  subst inv. rewrite extract_run. fold p. cbn [fs trace].
  split.
  - intros -> Hnone.
    destruct (features_from_place E _ tags_dict) as [[g|]|e]; try done.
    simpl in Hnone. by rewrite Hnone.
  - intros e ->. cbn [fst snd]. split; [done|].
    unfold events_since. cbn [trace]. rewrite <- app_assoc.
    by rewrite drop_app_length.
Qed.

Lemma batch_continues_until_an_invocation_raises_witness :
  let tags_dict := [(lit "amenity", SelTrue)] in
  let batch l := extract_for_provinces Sample.cafes l tags_dict (lit "out") in
  let w1 := (batch [lit "B"] Sample.blocked).2 in
  let run := batch [lit "B"; lit "A"] Sample.blocked in
  run.1 = Raised FileExistsError /\
  events_since w1 run.2
  = [EPrint (MsgExtracting (lit "A")); EMakedirs (lit "out/A")].
Proof.
  intros tags_dict batch w1 run.
  destruct (batch_continues_until_an_invocation_raises Sample.cafes
              [lit "B"; lit "A"] tags_dict (lit "out") Sample.blocked)
    as [_ H].
  destruct (H [lit "B"] (lit "A") [] w1) as (_ & _ & Hraise);
    [reflexivity|by vm_compute|].
  apply (Hraise FileExistsError). reflexivity.
Defined.

(** ** The layout of the output *)

Lemma startswith_refl s : startswith s s = true.
Proof. induction s as [|c s IH]; simpl; [done|]. by rewrite N.eqb_refl. Qed.

Lemma startswith_app_l s x y :
  startswith s x = true -> startswith s (x ++ y) = true.
Proof.
  revert x. induction s as [|d s IH]; intros [|c x]; simpl; try done.
  intros [Hd H]%andb_true_iff. rewrite Hd. simpl. by apply IH.
Qed.

Lemma startswith_app s x y :
  startswith s (x ++ y) = true ->
  startswith s x = true \/ exists s2, s = x ++ s2 /\ startswith s2 y = true.
Proof.
  revert s. induction x as [|c x IH]; intros s; simpl.
  - intros H. right. by exists s.
  - destruct s as [|d s]; [by left|]. simpl.
    intros [Hd H]%andb_true_iff. apply N.eqb_eq in Hd as ->.
    destruct (IH s H) as [Hx|(s2 & -> & H2)].
    + left. by rewrite N.eqb_refl.
    + right. by exists s2.
Qed.

(** A match does not run across a character the pattern does not have. *)
Lemma startswith_across s x u y :
  u ∉ s -> startswith s (x ++ u :: y) = startswith s x.
Proof.
  intros Hu. destruct (startswith s x) eqn:Hx; [by apply startswith_app_l|].
  destruct (startswith s (x ++ u :: y)) eqn:H; [|done].
  apply startswith_app in H as [H|(s2 & -> & H)]; [congruence|].
  destruct s2 as [|d s2].
  - rewrite app_nil_r, startswith_refl in Hx. done.
  - simpl in H. apply andb_true_iff in H as [Hd _]. apply N.eqb_eq in Hd as ->.
    exfalso. apply Hu, elem_of_app. right. by left.
Qed.

Lemma contains_cons s c a :
  contains s (c :: a) = startswith s (c :: a) || contains s a.
Proof. done. Qed.

Lemma contains_app_sep s a u b :
  s <> [] -> u ∉ s ->
  contains s (a ++ u :: b) = contains s a || contains s b.
Proof.
  intros Hs Hu. induction a as [|c a IH].
  - change ([] ++ u :: b) with (u :: b). rewrite contains_cons.
    pose proof (startswith_across s [] u b Hu) as H. cbn [app] in H.
    rewrite H. by destruct s.
  - change ((c :: a) ++ u :: b) with (c :: (a ++ u :: b)).
    rewrite !contains_cons, IH.
    change (c :: (a ++ u :: b)) with ((c :: a) ++ u :: b).
    rewrite startswith_across by done. by rewrite orb_assoc.
Qed.

Lemma replace_from_skip_all old new s : replace_from old new (length s) s = [].
Proof. induction s as [|c s IH]; simpl; done. Qed.

(** When [old] does not occur in [a] and its first character does not come
    again in it, the only match in [a ++ old] is the last one. *)
Lemma replace_last d old' new a :
  d ∉ old' -> contains (d :: old') a = false ->
  replace (d :: old') new (a ++ d :: old') = a ++ new.
Proof.
  intros Hd. unfold replace. induction a as [|c a IH]; intros Ha.
  - change (replace_from (d :: old') new 0 ([] ++ d :: old'))
      with (if startswith (d :: old') (d :: old')
            then new ++ replace_from (d :: old') new (length old' - 0) old'
            else d :: replace_from (d :: old') new 0 old').
    rewrite startswith_refl, Nat.sub_0_r, replace_from_skip_all.
    by rewrite app_nil_r.
  - rewrite contains_cons in Ha. apply orb_false_iff in Ha as [Hs Ha].
    change (replace_from (d :: old') new 0 ((c :: a) ++ d :: old'))
      with (if startswith (d :: old') ((c :: a) ++ d :: old')
            then new ++ replace_from (d :: old') new (length old' - 0)
                          (a ++ d :: old')
            else c :: replace_from (d :: old') new 0 (a ++ d :: old')).
    destruct (startswith (d :: old') ((c :: a) ++ d :: old')) eqn:Hm;
      [|by rewrite IH].
    apply startswith_app in Hm as [Hm|(s2 & Hold & Hm)]; [congruence|].
    destruct s2 as [|e s2].
    + rewrite app_nil_r in Hold. rewrite Hold, startswith_refl in Hs. done.
    + simpl in Hm. apply andb_true_iff in Hm as [He _].
      apply N.eqb_eq in He as ->. injection Hold as _ ->.
      exfalso. apply Hd, elem_of_app. right. by left.
Qed.

(** The CSV name of a file whose base name and stem do not hold the text
    [.geojson]: only the extension changes. *)
Lemma csv_name_plain base stem :
  contains (lit ".geojson") base = false ->
  contains (lit ".geojson") stem = false ->
  csv_name (base ++ lit "_" ++ stem ++ lit ".geojson")
  = base ++ lit "_" ++ stem ++ lit ".csv".
Proof.
  unfold csv_name. change (lit "_") with [underscore].
  change (lit ".geojson") with (46%N :: lit "geojson").
  intros Hb Hs.
  replace (base ++ [underscore] ++ stem ++ 46%N :: lit "geojson")
    with ((base ++ underscore :: stem) ++ 46%N :: lit "geojson")
    by (by rewrite <- app_assoc).
  rewrite replace_last.
  - by rewrite <- app_assoc.
  - apply (bool_decide_unpack _). by vm_compute.
  - rewrite contains_app_sep, Hb, Hs; [done|done|].
    apply (bool_decide_unpack _). by vm_compute.
Qed.

Lemma lstrip_whitespace_app a y :
  Forall (fun c => isspace c = true) a -> lstrip (a ++ y) = lstrip y.
Proof. induction 1 as [|c a Hc _ IH]; simpl; [done|]. by rewrite Hc. Qed.

Lemma rstrip_app a b :
  rstrip (a ++ b) = match rstrip b with [] => rstrip a | t => a ++ t end.
Proof.
  induction a as [|c a IH]; simpl.
  - by destruct (rstrip b).
  - rewrite IH. destruct (rstrip b) as [|d t]; [done|]. by destruct a.
Qed.

Lemma rstrip_whitespace_app x b :
  Forall (fun c => isspace c = true) b -> rstrip (x ++ b) = rstrip x.
Proof. intros Hb%rstrip_nil_iff. by rewrite rstrip_app, Hb. Qed.

(** Whitespace around a string does not change what [strip] returns. *)
Lemma strip_pad a x b :
  Forall (fun c => isspace c = true) a ->
  Forall (fun c => isspace c = true) b ->
  strip (a ++ x ++ b) = strip x.
Proof.
  intros Ha Hb. unfold strip. rewrite lstrip_whitespace_app by done.
  induction x as [|c x IH]; cbn [lstrip app].
  - apply lstrip_nil_iff in Hb. by rewrite Hb.
  - destruct (isspace c); [done|].
    change (c :: x ++ b) with ((c :: x) ++ b). by rewrite rstrip_whitespace_app.
Qed.

Lemma lstrip_decomp s :
  exists a, Forall (fun c => isspace c = true) a /\ s = a ++ lstrip s.
Proof.
  induction s as [|c s (a & Ha & IH)]; [by exists []|]. cbn [lstrip].
  destruct (isspace c) eqn:Hc; [|by exists []].
  exists (c :: a). split; [by constructor|]. simpl. by rewrite <- IH.
Qed.

Lemma rstrip_decomp s :
  exists b, Forall (fun c => isspace c = true) b /\ s = rstrip s ++ b.
Proof.
  induction s as [|c s (b & Hb & IH)]; [by exists []|]. cbn [rstrip].
  destruct (rstrip s) as [|d t] eqn:Hr.
  - apply rstrip_nil_iff in Hr.
    destruct (isspace c) eqn:Hc; [exists (c :: s)|exists s]; split; try done.
    by constructor.
  - exists b. split; [done|]. simpl. by rewrite IH at 1.
Qed.

Lemma strip_decomp s :
  exists a b,
    Forall (fun c => isspace c = true) a /\
    Forall (fun c => isspace c = true) b /\
    s = a ++ strip s ++ b.
Proof.
  destruct (lstrip_decomp s) as (a & Ha & Hs).
  destruct (rstrip_decomp (lstrip s)) as (b & Hb & Hl).
  exists a, b. split; [done|]. split; [done|].
  unfold strip. by rewrite <- Hl.
Qed.

(** [clean_name] does not see the whitespace around its argument. *)
Lemma clean_name_strip s : clean_name (strip s) = clean_name s.
Proof.
  rewrite !clean_name_unfold. f_equal.
  set (g := fun t : list N =>
              List.map (fun x => if N.eqb x slash then underscore else x)
                (List.filter (fun x => negb (N.eqb x comma)) t)).
  change (strip (g (strip s)) = strip (g s)).
  assert (forall t, Forall (fun c => isspace c = true) t -> g t = t) as Hws.
  { induction 1 as [|c t Hc _ IH]; [done|]. unfold g in *. simpl.
    destruct (N.eqb c comma) eqn:E1;
      [apply N.eqb_eq in E1; subst c; done|]. simpl.
    destruct (N.eqb c slash) eqn:E2;
      [apply N.eqb_eq in E2; subst c; done|]. by rewrite IH. }
  assert (forall t u, g (t ++ u) = g t ++ g u) as Happ.
  { intros t u. unfold g. by rewrite List.filter_app, List.map_app. }
  destruct (strip_decomp s) as (a & b & Ha & Hb & Hs).
  remember (strip s) as t eqn:Ht. clear Ht. subst s.
  rewrite !Happ, (Hws a Ha), (Hws b Hb). symmetry. by apply strip_pad.
Qed.

Lemma geojson_names_stems base tags_dict name :
  name ∈ geojson_names base tags_dict ->
  exists stem,
    stem ∈ stems tags_dict /\ name = base ++ lit "_" ++ stem ++ lit ".geojson".
Proof.
  unfold geojson_names, stems. rewrite elem_of_cons, list_elem_of_fmap.
  intros [-> | ([key values] & -> & Hin)].
  - exists (lit "all_amenities"). split; [by left|done].
  - exists (clean_name key). split; [|done].
    right. apply list_elem_of_fmap. by exists (key, values).
Qed.

Lemma region_folder_plain output_root_folder prov :
  comma ∉ output_root_folder ->
  region_folder output_root_folder prov
  = os_path_join output_root_folder (clean_name prov).
Proof.
  intros Hroot. apply replace_comma_id.
  intros [H|[H|H]]%elem_of_os_path_join; [done| |done].
  by apply clean_name_chars in H as (? & _).
Qed.

(** Every file of a batch: its folder, its base name, its stem. *)
Lemma batch_files E provinces_list tags_dict output_root_folder w :
  Forall (fun e =>
    match e with
    | EToFile f _ =>
        exists prov stem,
          prov ∈ provinces_list /\ stem ∈ stems tags_dict /\
          f = os_path_join (region_folder output_root_folder prov)
                (clean_name (query_place_of prov) ++ lit "_" ++ stem
                 ++ lit ".geojson")
    | EToCsv f _ =>
        exists prov stem,
          prov ∈ provinces_list /\ stem ∈ stems tags_dict /\
          let name := clean_name (query_place_of prov) ++ lit "_" ++ stem
                      ++ lit ".geojson" in
          (slash ∉ csv_name name) /\
          f = os_path_join (region_folder output_root_folder prov) (csv_name name)
    | _ => True
    end)
    (events_since w
       (extract_for_provinces E provinces_list tags_dict output_root_folder w).2).
Proof.
  apply appends_events_since. revert w. apply always_batch.
  - apply appends_refl.
  - apply appends_trans.
  - intros prov_clean w. exists [EPrint (MsgExtracting prov_clean)].
    split; [done|by constructor].
  - intros prov Hprov w.
    eapply appends_weaken; [|apply extractor_appends].
    intros [d|?|f g|f g|?]; unfold extractor_event; try done.
    + intros (name & Hname & ->).
      apply geojson_names_stems in Hname as (stem & Hstem & ->).
      by exists prov, stem.
    + intros (name & Hname & ->).
      assert (slash ∉ csv_name name) as Hslash.
      { intros H. eapply csv_name_chars in H as [_ ?]; [done|].
        intros c. by apply (geojson_names_chars _ _ _ c Hname). }
      apply geojson_names_stems in Hname as (stem & Hstem & ->).
      by exists prov, stem.
Qed.

(** C7, as the code has it.  The Batch Driver names the directory of a
    region by [clean_name] of the region name, the Region Extractor takes
    the base name of the files from [clean_name] of the query name of the
    region: every GeoJSON file of a batch is [base_stem.geojson] in the
    region's folder, the stem being [all_amenities] or the cleaned key of a
    tag, and every CSV file stands in the same folder.  For region names
    whose whitespace, apart from the ends, is single spaces the two names
    are the same, and the layout is [root/region/region_stem.geojson] and
    [root/region/region_stem.csv], as long as the root has no comma and
    neither the cleaned region names nor the stems hold the text
    [.geojson]. *)
Theorem file_base_name_is_folder_name
    (E : env) (provinces_list : list str) (tags_dict : tags)
    (output_root_folder : str) (w : world) :
  let evs :=
    events_since w
      (extract_for_provinces E provinces_list tags_dict output_root_folder w).2 in
  Forall (fun e =>
    match e with
    | EToFile f _ =>
        exists prov stem,
          prov ∈ provinces_list /\ stem ∈ stems tags_dict /\
          f = os_path_join (region_folder output_root_folder prov)
                (clean_name (query_place_of prov) ++ lit "_" ++ stem
                 ++ lit ".geojson")
    | EToCsv f _ =>
        exists prov name,
          prov ∈ provinces_list /\ (slash ∉ name) /\
          f = os_path_join (region_folder output_root_folder prov) name
    | _ => True
    end) evs /\
  (comma ∉ output_root_folder ->
   Forall (fun prov =>
             query_place_of prov = strip prov /\
             contains (lit ".geojson") (clean_name prov) = false)
     provinces_list ->
   Forall (fun stem => contains (lit ".geojson") stem = false)
     (stems tags_dict) ->
   Forall (fun e =>
     match e with
     | EToFile f _ =>
         exists prov stem,
           prov ∈ provinces_list /\ stem ∈ stems tags_dict /\
           f = os_path_join (os_path_join output_root_folder (clean_name prov))
                 (clean_name prov ++ lit "_" ++ stem ++ lit ".geojson")
     | EToCsv f _ =>
         exists prov stem,
           prov ∈ provinces_list /\ stem ∈ stems tags_dict /\
           f = os_path_join (os_path_join output_root_folder (clean_name prov))
                 (clean_name prov ++ lit "_" ++ stem ++ lit ".csv")
     | _ => True
     end) evs).
Proof.
  intros evs. subst evs. split.
  - eapply Forall_impl; [apply batch_files|].
    intros [d|?|f g|f g|?]; try done.
    intros (prov & stem & Hprov & Hstem & Hslash & ->).
    by eexists prov, _.
  - intros Hroot Hprovs Hstems.
    rewrite Forall_forall in Hprovs. rewrite Forall_forall in Hstems.
    eapply Forall_impl; [apply batch_files|].
    intros [d|?|f g|f g|?]; try done.
    + intros (prov & stem & Hprov & Hstem & ->).
      destruct (Hprovs prov Hprov) as [Hq _].
      exists prov, stem. split; [done|]. split; [done|].
      by rewrite region_folder_plain, Hq, clean_name_strip.
    + intros (prov & stem & Hprov & Hstem & _ & ->).
      destruct (Hprovs prov Hprov) as [Hq Hbase].
      exists prov, stem. split; [done|]. split; [done|].
      rewrite region_folder_plain, Hq, clean_name_strip by done.
      by rewrite csv_name_plain by auto.
Qed.

Lemma file_base_name_is_folder_name_witness :
  let provinces_list := [lit "  Calgary, Alberta "; lit "Toronto, Ontario"] in
  let tags_dict := [(lit "amenity", SelTrue)] in
  Forall (fun e =>
    match e with
    | EToFile f _ =>
        exists prov stem,
          prov ∈ provinces_list /\ stem ∈ stems tags_dict /\
          f = os_path_join (os_path_join (lit "out") (clean_name prov))
                (clean_name prov ++ lit "_" ++ stem ++ lit ".geojson")
    | EToCsv f _ =>
        exists prov stem,
          prov ∈ provinces_list /\ stem ∈ stems tags_dict /\
          f = os_path_join (os_path_join (lit "out") (clean_name prov))
                (clean_name prov ++ lit "_" ++ stem ++ lit ".csv")
    | _ => True
    end)
    (events_since Sample.fresh
       (extract_for_provinces Sample.cafes provinces_list tags_dict (lit "out")
          Sample.fresh).2).
Proof.
  intros provinces_list tags_dict.
  destruct (file_base_name_is_folder_name Sample.cafes provinces_list tags_dict
              (lit "out") Sample.fresh) as [_ H].
  apply H.
  - refine (bool_decide_unpack _ _). vm_compute. exact I.
  - refine (bool_decide_unpack _ _). vm_compute. exact I.
  - refine (bool_decide_unpack _ _). vm_compute. exact I.
Defined.
